(** * Prix Carburants: the in-browser search, filter and sort pipeline

    A shallow embedding of [static/js/app.js] (class [CarburantApp]) and the
    properties its specification states about it.

    Conventions.
    - A JavaScript string is its sequence of UTF-16 code units.
    - A JavaScript Number is an IEEE 754 binary64 value ([spec_float] with
      [prec = 53], [emax = 1024]).
    - A time value (what [Date.prototype.getTime] returns) is an integral
      number of milliseconds, kept in [Z].
    - A function that may throw returns a [result]. *)

From Stdlib Require Import ZArith NArith List Bool Lia String Ascii SpecFloat.
From Stdlib Require Import Permutation Sorted.
Import ListNotations.

Local Open Scope Z_scope.

(** ** JavaScript strings *)

Module Js.

Definition code_unit := N.
Definition jsstring := list code_unit.

(** An ASCII literal of the source as a list of code units. *)
Definition lit (s : string) : jsstring :=
  List.map N_of_ascii (list_ascii_of_string s).

Fixpoint str_eqb (a b : jsstring) : bool :=
  match a, b with
  | [], [] => true
  | x :: a', y :: b' => N.eqb x y && str_eqb a' b'
  | _, _ => false
  end.

(** [WhiteSpace] and [LineTerminator] code points: what [\s] matches and
    what [String.prototype.trim] and [parseFloat] strip. *)
Definition is_ws (c : code_unit) : bool :=
  ((9 <=? c) && (c <=? 13) || (c =? 32) || (c =? 160) || (c =? 5760)
   || (8192 <=? c) && (c <=? 8202) || (c =? 8232) || (c =? 8233)
   || (c =? 8239) || (c =? 8287) || (c =? 12288) || (c =? 65279))%N.

Fixpoint trim_start (s : jsstring) : jsstring :=
  match s with
  | c :: t => if is_ws c then trim_start t else s
  | [] => []
  end.

Definition trim_end (s : jsstring) : jsstring := rev (trim_start (rev s)).

(** [String.prototype.trim]. *)
Definition trim (s : jsstring) : jsstring := trim_end (trim_start s).

Definition is_digit (c : code_unit) : bool := ((48 <=? c) && (c <=? 57))%N.

Definition digit_val (c : code_unit) : Z := Z.of_N c - 48.

(** ** Thrown values *)

Inductive error :=
  | TypeError
  | URIError
  | Error (message : jsstring).

Inductive result (A : Type) :=
  | Ok (a : A)
  | Throw (e : error).
Arguments Ok {A} a.
Arguments Throw {A} e.

Definition bind {A B} (r : result A) (k : A -> result B) : result B :=
  match r with
  | Ok a => k a
  | Throw e => Throw e
  end.

Notation "x <- r ;; k" := (bind r (fun x => k))
  (at level 61, r at next level, right associativity).

(** ** Numbers *)

Definition number := spec_float.

Definition prec : Z := 53.
Definition emax : Z := 1024.

Definition NaN : number := S754_nan.
Definition Infinity : number := S754_infinity false.
Definition zero : number := S754_zero false.

Definition num_add : number -> number -> number := SFadd prec emax.
Definition num_sub : number -> number -> number := SFsub prec emax.
Definition num_div : number -> number -> number := SFdiv prec emax.

(** The Number value of a mathematical integer. *)
Definition num_of_Z (z : Z) : number := binary_normalize prec emax z 0 false.

Definition isNaN (x : number) : bool :=
  match x with S754_nan => true | _ => false end.

Definition is_zero (x : number) : bool :=
  match x with S754_zero _ => true | _ => false end.

(** Neither NaN nor an infinity. *)
Definition isFinite (x : number) : bool :=
  match x with
  | S754_zero _ | S754_finite _ _ _ => true
  | _ => false
  end.

(** The sign a comparator result has for [Array.prototype.sort]: the sort
    replaces NaN by +0 and looks only at whether the value is negative,
    zero or positive. *)
Definition sign_of (x : number) : Z :=
  match x with
  | S754_nan | S754_zero _ => 0
  | S754_infinity s | S754_finite s _ _ => if s then -1 else 1
  end.

(** ** JSON values held in dynamically typed fields *)

(** The values a price, a timestamp, a flag or a coordinate may hold.
    Arrays and objects do not occur in these fields and are left out. *)
Inductive value :=
  | VUndefined
  | VNull
  | VBool (b : bool)
  | VNum (x : number)
  | VStr (s : jsstring).

(** [ToBoolean]. *)
Definition truthy (v : value) : bool :=
  match v with
  | VUndefined | VNull => false
  | VBool b => b
  | VNum x => negb (isNaN x || is_zero x)
  | VStr s => match s with [] => false | _ => true end
  end.

(** ** parseFloat *)

(** The maximal run of decimal digits at the head of [s], with the rest. *)
Fixpoint span_digits (s : jsstring) : list code_unit * jsstring :=
  match s with
  | c :: t =>
      if is_digit c then let (d, r) := span_digits t in (c :: d, r)
      else ([], s)
  | [] => ([], [])
  end.

Definition digits_val (d : list code_unit) : Z :=
  fold_left (fun acc c => 10 * acc + digit_val c) d 0.

Fixpoint starts_with (p s : jsstring) : bool :=
  match p, s with
  | [], _ => true
  | x :: p', y :: s' => N.eqb x y && starts_with p' s'
  | _ :: _, [] => false
  end.

(** [ExponentPart], when one can be read at the head of [s]: [e] or [E],
    an optional sign and at least one digit. *)
Definition exponent_part (s : jsstring) : Z :=
  match s with
  | c :: t =>
      if ((c =? 101) || (c =? 69))%N then
        let (neg, t') :=
          match t with
          | sg :: u =>
              if (sg =? 45)%N then (true, u)
              else if (sg =? 43)%N then (false, u) else (false, t)
          | [] => (false, t)
          end in
        match fst (span_digits t') with
        | [] => 0
        | d => if neg then - digits_val d else digits_val d
        end
      else 0
  | [] => 0
  end.

(** The Number value of [m * 10^e], [m > 0], rounded once to nearest,
    ties to even. *)
Definition num_of_decimal (neg : bool) (m : positive) (e : Z) : number :=
  match e with
  | Zneg k =>
      let '(q, e', l) :=
        SFdiv_core_binary prec emax (Zpos m) 0 (Zpos (Pos.pow 10 k)) 0 in
      binary_round_aux prec emax neg q e' l
  | _ => binary_round prec emax neg (m * Z.to_pos (10 ^ e))%positive 0
  end.

(** [StrUnsignedDecimalLiteral]: the longest prefix of [s] that is one, as
    a Number; [None] when no prefix is. *)
Definition unsigned_literal (neg : bool) (s : jsstring) : option number :=
  if starts_with (lit "Infinity") s then Some (S754_infinity neg)
  else
    let (ip, r) := span_digits s in
    let (fp, r') :=
      match r with
      | c :: t => if (c =? 46)%N then span_digits t else ([], r)
      | [] => ([], r)
      end in
    match ip, fp with
    | [], [] => None
    | _, _ =>
        let e := exponent_part r' - Z.of_nat (List.length fp) in
        match digits_val (ip ++ fp) with
        | Zpos m => Some (num_of_decimal neg m e)
        | _ => Some (S754_zero neg)
        end
    end.

(** [parseFloat] applied to a string. *)
Definition parseFloat_string (s : jsstring) : number :=
  let t := trim_start s in
  let r :=
    match t with
    | c :: u =>
        if (c =? 45)%N then unsigned_literal true u
        else if (c =? 43)%N then unsigned_literal false u
        else unsigned_literal false t
    | [] => None
    end in
  match r with
  | Some x => x
  | None => NaN
  end.

(** [parseFloat] applied to any value: the argument is first converted with
    [ToString].  [Number::toString] prints the shortest decimal that reads
    back as the same Number, and prints both zeros as ["0"], so parsing the
    string of a Number yields that Number with the sign of zero dropped. *)
Definition parseFloat (v : value) : number :=
  match v with
  | VUndefined => parseFloat_string (lit "undefined")
  | VNull => parseFloat_string (lit "null")
  | VBool true => parseFloat_string (lit "true")
  | VBool false => parseFloat_string (lit "false")
  | VNum x => if is_zero x then zero else x
  | VStr s => parseFloat_string s
  end.

(** ** encodeURIComponent *)

(** The characters [encodeURIComponent] leaves as they are: ASCII letters,
    digits and [- _ . ! ~ * ' ( )]. *)
Definition uri_unreserved (c : code_unit) : bool :=
  ((65 <=? c) && (c <=? 90) || (97 <=? c) && (c <=? 122) || is_digit c
   || (c =? 45) || (c =? 95) || (c =? 46) || (c =? 33) || (c =? 126)
   || (c =? 42) || (c =? 39) || (c =? 40) || (c =? 41))%N.

Definition hex_digit (n : N) : code_unit :=
  (if n <? 10 then 48 + n else 55 + n)%N.

(** One octet as [%XX], in upper-case hexadecimal. *)
Definition pct (b : N) : jsstring :=
  [37%N; hex_digit (b / 16); hex_digit (b mod 16)].

(** The UTF-8 octets of a code point, each percent-encoded. *)
Definition pct_utf8 (cp : N) : jsstring :=
  (if cp <? 128 then pct cp
   else if cp <? 2048 then pct (192 + cp / 64) ++ pct (128 + cp mod 64)
   else if cp <? 65536 then
     pct (224 + cp / 4096) ++ pct (128 + (cp / 64) mod 64)
       ++ pct (128 + cp mod 64)
   else
     pct (240 + cp / 262144) ++ pct (128 + (cp / 4096) mod 64)
       ++ pct (128 + (cp / 64) mod 64) ++ pct (128 + cp mod 64))%N.

Definition is_lead_surrogate (c : code_unit) : bool :=
  ((55296 <=? c) && (c <=? 56319))%N.
Definition is_trail_surrogate (c : code_unit) : bool :=
  ((56320 <=? c) && (c <=? 57343))%N.

(** [encodeURIComponent]: throws a URIError on a surrogate code unit that
    is not part of a pair. *)
Fixpoint encodeURIComponent (s : jsstring) : result jsstring :=
  match s with
  | [] => Ok []
  | c :: t =>
      if uri_unreserved c then
        r <- encodeURIComponent t ;; Ok (c :: r)
      else if is_trail_surrogate c then Throw URIError
      else if is_lead_surrogate c then
        match t with
        | c2 :: t' =>
            if is_trail_surrogate c2 then
              r <- encodeURIComponent t' ;;
              Ok (pct_utf8 ((c - 55296) * 1024 + (c2 - 56320) + 65536)%N ++ r)
            else Throw URIError
        | [] => Throw URIError
        end
      else
        r <- encodeURIComponent t ;; Ok (pct_utf8 c ++ r)
  end.

(** ** Array.prototype.sort *)

Section Sort.
Context {A : Type}.

(** The comparator, reduced to the sign of the number it returns:
    positive when its first argument must come after its second. *)
Variable cmp : A -> A -> Z.

Fixpoint insert_sorted (x : A) (l : list A) : list A :=
  match l with
  | [] => [x]
  | y :: t => if 0 <? cmp x y then y :: insert_sorted x t else x :: l
  end.

(** The stable sort: elements the comparator does not separate keep
    their relative order.  Since ECMAScript 2019 every engine returns
    this list whenever the comparator is a consistent one; when it is not
    (a NaN among the keys), the order is left to the engine and need not
    be this one, so every property that fixes an order excludes that
    case. *)
Fixpoint sort (l : list A) : list A :=
  match l with
  | [] => []
  | x :: t => insert_sorted x (sort t)
  end.
End Sort.

(** ** Dates *)

Definition msPerDay : Z := 86400000.

Definition DaysInYear (y : Z) : Z :=
  if negb (y mod 4 =? 0) then 365
  else if negb (y mod 100 =? 0) then 366
  else if negb (y mod 400 =? 0) then 365
  else 366.

(** Day number of the first day of year [y], counted from 1 January 1970. *)
Definition DayFromYear (y : Z) : Z :=
  365 * (y - 1970) + (y - 1969) / 4 - (y - 1901) / 100 + (y - 1601) / 400.

(** Days of the year that precede month [m] (0 is January). *)
Definition DaysBeforeMonth (leap : Z) (m : Z) : Z :=
  match m with
  | 0 => 0
  | 1 => 31
  | 2 => 59 + leap
  | 3 => 90 + leap
  | 4 => 120 + leap
  | 5 => 151 + leap
  | 6 => 181 + leap
  | 7 => 212 + leap
  | 8 => 243 + leap
  | 9 => 273 + leap
  | 10 => 304 + leap
  | _ => 334 + leap
  end.

(** [MakeDay]: a month outside 0..11 carries into the year, a day outside
    the month carries into the neighbouring months. *)
Definition MakeDay (year month date : Z) : Z :=
  let ym := year + month / 12 in
  let mn := month mod 12 in
  DayFromYear ym + DaysBeforeMonth (DaysInYear ym - 365) mn + date - 1.

Definition MakeTime (hour min sec ms : Z) : Z :=
  hour * 3600000 + min * 60000 + sec * 1000 + ms.

Definition MakeDate (day time : Z) : Z := day * msPerDay + time.

(** [new Date(year, month, day, hour, minute).getTime()] for integral
    arguments.  A year from 0 to 99 means 1900 + year.  [UTC] is the host's
    conversion of a local time to UTC (time zone and daylight saving).
    [TimeClip] is left out: it only rejects instants more than 10^8 days
    from the epoch, which no four-digit year reaches. *)
Definition Date_getTime (UTC : Z -> Z) (year month day hour minute : Z) : Z :=
  let yr := if (0 <=? year) && (year <=? 99) then 1900 + year else year in
  UTC (MakeDate (MakeDay yr month day) (MakeTime hour minute 0 0)).

End Js.

Import Js.

(** ** Data model: what the search endpoint returns *)

(** One price of a station: [{nom, valeur, maj}]. *)
Record PriceEntry := {
  nom : jsstring;
  valeur : value;
  maj : value
}.

(** A station record.  A text field is [None] when the property is absent
    or null.  [id] and [services] are only printed on the card and are
    left out. *)
Record Station := {
  marque : option jsstring;
  adresse : option jsstring;
  cp : option jsstring;
  ville : option jsstring;
  type : option jsstring;
  automate_24h : value;
  horaires : option jsstring;
  latitude : value;
  longitude : value;
  prix : option (list PriceEntry)
}.

(** [o || d] for a text field. *)
Definition or_else (o : option jsstring) (d : jsstring) : jsstring :=
  match o with
  | Some (c :: s) => c :: s
  | _ => d
  end.

(** [o === s] for a text field and a string literal. *)
Definition field_is (o : option jsstring) (s : jsstring) : bool :=
  match o with
  | Some x => str_eqb x s
  | None => false
  end.

(** [v === s] for a value and a string literal. *)
Definition value_is (v : value) (s : jsstring) : bool :=
  match v with
  | VStr x => str_eqb x s
  | _ => false
  end.

(** ["Non renseigné"] *)
Definition non_renseigne : jsstring := lit "Non renseign" ++ [233%N].

(** ** Timestamps in the display format *)

(** The groups captured by
    [/(\d{2})\/(\d{2})\/(\d{4}) à (\d{2}):(\d{2})/], as numbers. *)
Record date_fields := {
  day : Z; month : Z; year : Z; hour : Z; minute : Z
}.

(** The pattern tried at the head of [s].  It has a fixed length of 18 code
    units; [\d] is an ASCII digit and [à] is U+00E0. *)
Definition match_date_at (s : jsstring) : option date_fields :=
  match s with
  | d1 :: d2 :: s1 :: m1 :: m2 :: s2 :: y1 :: y2 :: y3 :: y4
      :: b1 :: a :: b2 :: h1 :: h2 :: c :: n1 :: n2 :: _ =>
      if forallb is_digit [d1; d2; m1; m2; y1; y2; y3; y4; h1; h2; n1; n2]
         && (s1 =? 47)%N && (s2 =? 47)%N && (b1 =? 32)%N && (a =? 224)%N
         && (b2 =? 32)%N && (c =? 58)%N
      then Some {| day := digits_val [d1; d2];
                   month := digits_val [m1; m2];
                   year := digits_val [y1; y2; y3; y4];
                   hour := digits_val [h1; h2];
                   minute := digits_val [n1; n2] |}
      else None
  | _ => None
  end.

(** [String.prototype.match] with that pattern: the leftmost match, the
    pattern not being anchored. *)
Fixpoint match_date (s : jsstring) : option date_fields :=
  match match_date_at s with
  | Some f => Some f
  | None =>
      match s with
      | [] => None
      | _ :: t => match_date t
      end
  end.

(** [dateStr.match(...)] on any value: only a string has the method. *)
Definition value_match_date (v : value) : result (option date_fields) :=
  match v with
  | VStr s => Ok (match_date s)
  | _ => Throw TypeError
  end.

(** [try { ... } catch (e) { return d; }] *)
Definition try_or {A} (r : result A) (d : A) : A :=
  match r with
  | Ok a => a
  | Throw _ => d
  end.

Inductive age := fresh | old | stale.

Section Carburant.

(** The host's conversion of a local time to UTC. *)
Variable UTC : Z -> Z.

(** [String.prototype.localeCompare], reduced to the sign of its result;
    the collation is the host's. *)
Variable localeCompare : jsstring -> jsstring -> Z.

(** [new Date(year, month - 1, day, hour, minute).getTime()] *)
Definition instant_of (f : date_fields) : Z :=
  Date_getTime UTC (year f) (month f - 1) (day f) (hour f) (minute f).

Definition parseDisplayDate (dateStr : value) : Z :=
  if negb (truthy dateStr) || value_is dateStr non_renseigne then 0
  else
    try_or
      (m <- value_match_date dateStr ;;
       match m with
       | None => Ok 0
       | Some f => Ok (instant_of f)
       end)
      0.

Definition getLatestUpdateTimestamp (station : Station) : Z :=
  match prix station with
  | None | Some [] => 0
  | Some l =>
      fold_left
        (fun latestTimestamp p =>
           let timestamp := parseDisplayDate (maj p) in
           if latestTimestamp <? timestamp then timestamp
           else latestTimestamp)
        l 0
  end.

(** [prix.valeur || 0] *)
Definition valeur_or_0 (p : PriceEntry) : value :=
  if truthy (valeur p) then valeur p else VNum zero.

Definition getPrixMoyen (station : Station) : number :=
  match prix station with
  | None | Some [] => Infinity
  | Some l =>
      let total :=
        fold_left (fun sum p => num_add sum (parseFloat (valeur_or_0 p)))
          l zero in
      num_div total (num_of_Z (Z.of_nat (List.length l)))
  end.

(** [getDataAge], with the current time [now] it reads from the clock.
    The age in days is the quotient of an integral number of
    milliseconds by 86400000; rounding that quotient to a Number cannot
    move it across 7 or 30, so the two comparisons are made on the
    milliseconds. *)
Definition getDataAge (now : Z) (dateString : value) : age :=
  if negb (truthy dateString) || value_is dateString non_renseigne
  then stale
  else
    try_or
      (m <- value_match_date dateString ;;
       match m with
       | None => Ok stale
       | Some f =>
           let diff := now - instant_of f in
           if diff <=? 7 * msPerDay then Ok fresh
           else if diff <=? 30 * msPerDay then Ok old
           else Ok stale
       end)
      stale.

(** ** Map link *)

(** The two shapes of URL [generateGoogleMapsUrl] builds:
    [https://www.google.com/maps/search/?api=1&query=${lat},${lon}] and
    [https://www.google.com/maps/search/${encodedQuery}]. *)
Inductive url :=
  | MapsCoords (lat lon : number)
  | MapsSearch (encodedQuery : jsstring).

(** [s.replace(/,\s*,/g, ',')], scanning left to right.  [pending] holds
    the white space read after a comma that may still open a match. *)
Fixpoint replace_commas (pending : option jsstring) (s : jsstring)
  : jsstring :=
  match s with
  | [] =>
      match pending with
      | None => []
      | Some w => 44%N :: w
      end
  | c :: t =>
      match pending with
      | None =>
          if (c =? 44)%N then replace_commas (Some []) t
          else c :: replace_commas None t
      | Some w =>
          if (c =? 44)%N then 44%N :: replace_commas None t
          else if is_ws c then replace_commas (Some (w ++ [c])) t
          else 44%N :: w ++ c :: replace_commas None t
      end
  end.

Definition adresseComplete (station : Station) : jsstring :=
  trim (replace_commas None
          (or_else (adresse station) [] ++ lit ", "
             ++ or_else (cp station) [] ++ lit " "
             ++ or_else (ville station) [] ++ lit ", France")).

(** The text searched for when the coordinates cannot be used. *)
Definition searchQuery (station : Station) : jsstring :=
  let marque := or_else (marque station) (lit "Station-service") in
  if negb (str_eqb marque (lit "Station-service"))
     && negb (str_eqb (trim marque) [])
  then marque ++ lit " " ++ adresseComplete station
  else lit "Station-service " ++ adresseComplete station.

(** [parseFloat(c) / 100000] *)
Definition degrees (c : value) : number :=
  num_div (parseFloat c) (num_of_Z 100000).

(** The [try] block around the coordinates has nothing to catch here:
    [parseFloat] cannot throw on a [value]. *)
Definition generateGoogleMapsUrl (station : Station) : result url :=
  let lat := degrees (latitude station) in
  let lon := degrees (longitude station) in
  if truthy (latitude station) && truthy (longitude station)
     && (negb (isNaN lat) && negb (isNaN lon)
         && negb (is_zero lat) && negb (is_zero lon))
  then Ok (MapsCoords lat lon)
  else
    encodedQuery <- encodeURIComponent (searchQuery station) ;;
    Ok (MapsSearch encodedQuery).

(** ** Filters *)

(** The controls [appliquerFiltres] and [rechercherStations] read.  A
    select is [None] when the element is not in the page. *)
Record Controls := {
  villeInput : jsstring;
  triSelect : option jsstring;
  typeStationSelect : option jsstring;
  horairesSelect : option jsstring;
  selectedFuels : list jsstring
}.

Definition filtrerType (typeStation : jsstring) (stations : list Station)
  : list Station :=
  match typeStation with
  | [] => stations
  | _ =>
      if str_eqb typeStation (lit "autoroute") then
        filter (fun s => field_is (type s) (lit "Autoroute")) stations
      else if str_eqb typeStation (lit "route") then
        filter (fun s => field_is (type s) (lit "Route")) stations
      else stations
  end.

Definition filtrerHoraires (horaires_ : jsstring) (stations : list Station)
  : list Station :=
  if str_eqb horaires_ (lit "24h") then
    filter (fun s => truthy (automate_24h s)) stations
  else if str_eqb horaires_ (lit "ouvert") then
    filter (fun s => negb (field_is (horaires s)
                             (lit "Horaires non disponibles"))
                     || truthy (automate_24h s)) stations
  else stations.

(** [Array.prototype.filter] with a predicate that may throw. *)
Fixpoint filter_result {A} (p : A -> result bool) (l : list A)
  : result (list A) :=
  match l with
  | [] => Ok []
  | x :: t =>
      b <- p x ;;
      r <- filter_result p t ;;
      Ok (if b then x :: r else r)
  end.

(** [selectedFuels.some(fuel => station.prix.some(prix => prix.nom === fuel))]
    for a non-empty selection: reading [some] of an absent price list
    throws. *)
Definition a_carburant (fuels : list jsstring) (station : Station)
  : result bool :=
  match prix station with
  | None => Throw TypeError
  | Some l =>
      Ok (existsb (fun fuel => existsb (fun p => str_eqb (nom p) fuel) l)
            fuels)
  end.

Definition filtrerCarburants (fuels : list jsstring)
  (stations : list Station) : result (list Station) :=
  match fuels with
  | [] => Ok stations
  | _ => filter_result (a_carburant fuels) stations
  end.

(** ** Sort *)

Definition trierStations (stations : list Station) (tri : jsstring)
  : list Station :=
  if str_eqb tri (lit "date-maj") || str_eqb tri [] then
    sort (fun a b =>
            Z.sgn (getLatestUpdateTimestamp b - getLatestUpdateTimestamp a))
      stations
  else if str_eqb tri (lit "prix-croissant") then
    sort (fun a b => sign_of (num_sub (getPrixMoyen a) (getPrixMoyen b)))
      stations
  else if str_eqb tri (lit "prix-decroissant") then
    sort (fun a b => sign_of (num_sub (getPrixMoyen b) (getPrixMoyen a)))
      stations
  else if str_eqb tri (lit "ville-az") then
    sort (fun a b => localeCompare (or_else (ville a) [])
                       (or_else (ville b) []))
      stations
  else if str_eqb tri (lit "marque-az") then
    sort (fun a b => localeCompare (or_else (marque a) [])
                       (or_else (marque b) []))
      stations
  else stations.

(** ** The controller *)

(** What the [resultats] element shows.  The HTML is not modelled: a
    result list is the city printed in the header and the stations whose
    cards are printed, in order. *)
Inductive display :=
  | Vide
  | Loading
  | ErrorBox (e : error)
  | NoResults
  | Results (ville : jsstring) (stations : list Station).

(** The fields of [CarburantApp], with the content of the [resultats]
    element the application writes to. *)
Record App := {
  stationsData : list Station;
  filteredStations : list Station;
  isLoading : bool;
  resultats : display
}.

Definition initial : App :=
  {| stationsData := []; filteredStations := []; isLoading := false;
     resultats := Vide |}.

Definition set_resultats (d : display) (a : App) : App :=
  {| stationsData := stationsData a;
     filteredStations := filteredStations a;
     isLoading := isLoading a;
     resultats := d |}.

Definition set_isLoading (b : bool) (a : App) : App :=
  {| stationsData := stationsData a;
     filteredStations := filteredStations a;
     isLoading := b;
     resultats := resultats a |}.

Definition set_filteredStations (l : list Station) (a : App) : App :=
  {| stationsData := stationsData a;
     filteredStations := l;
     isLoading := isLoading a;
     resultats := resultats a |}.

Definition showLoading : App -> App := set_resultats Loading.

Definition showError (e : error) : App -> App := set_resultats (ErrorBox e).

(** Building a card calls [prix.valeur.toFixed(3)] on every price, which
    throws unless the value is a Number. *)
Definition creerCarteStation (station : Station) : result Station :=
  match prix station with
  | None => Ok station
  | Some l =>
      if forallb (fun p => match valeur p with VNum _ => true | _ => false end)
           l
      then Ok station
      else Throw TypeError
  end.

Fixpoint map_result {A B} (f : A -> result B) (l : list A)
  : result (list B) :=
  match l with
  | [] => Ok []
  | x :: t => y <- f x ;; r <- map_result f t ;; Ok (y :: r)
  end.

(** The element is written once all the cards are built. *)
Definition afficherResultats (c : Controls) (stations : list Station)
  : result display :=
  match stations with
  | [] => Ok NoResults
  | _ =>
      cards <- map_result creerCarteStation stations ;;
      Ok (Results (trim (villeInput c)) cards)
  end.

(** The three filters, in the order of the source. *)
Definition filtrer (c : Controls) (stations : list Station)
  : result (list Station) :=
  let stations := filtrerType (or_else (typeStationSelect c) []) stations in
  let stations := filtrerHoraires (or_else (horairesSelect c) []) stations in
  filtrerCarburants (selectedFuels c) stations.

(** [appliquerFiltres]: the application as the call leaves it, and the
    exception the call ends with, if any. *)
Definition appliquerFiltres (c : Controls) (a : App) : App * option error :=
  match stationsData a with
  | [] => (a, None)
  | _ =>
      match filtrer c (stationsData a) with
      | Throw e => (a, Some e)
      | Ok stations =>
          let tri := or_else (triSelect c) (lit "date-maj") in
          let stations := trierStations stations tri in
          let a := set_filteredStations stations a in
          match afficherResultats c stations with
          | Throw e => (a, Some e)
          | Ok d => (set_resultats d a, None)
          end
      end
  end.

Definition reinitialiserFiltres (c : Controls) (a : App)
  : App * option error :=
  appliquerFiltres
    {| villeInput := villeInput c;
       triSelect := option_map (fun _ => lit "date-maj") (triSelect c);
       typeStationSelect := option_map (fun _ => []) (typeStationSelect c);
       horairesSelect := option_map (fun _ => []) (horairesSelect c);
       selectedFuels := [] |}
    a.

(** What a call asks of the browser. *)
Inductive effect :=
  | Alert (message : jsstring)
  | Fetch (url : jsstring).

(** How the request of a search ends. *)
Inductive response :=
  | Rejected (e : error)
  | NotJson (e : error)
  | Json (ok : bool) (error : option jsstring)
      (stations : option (list Station)).

(** [rechercherStations] up to its first [await]: the part that runs when
    the button is clicked. *)
Definition rechercherStations (c : Controls) (a : App) : App * list effect :=
  match trim (villeInput c) with
  | [] => (a, [Alert (lit "Veuillez saisir le nom d'une ville")])
  | ville =>
      if isLoading a then (a, [])
      else
        let a := set_isLoading true (showLoading a) in
        match encodeURIComponent ville with
        | Ok q => (a, [Fetch (lit "/api/search?ville=" ++ q)])
        | Throw e => (set_isLoading false (showError e a), [])
        end
  end.

(** [rechercherStations] from the point where the request settles: the
    rest of the [try] block, then [catch] and [finally]. *)
Definition rechercherStations_suite (c : Controls) (r : response) (a : App)
  : App :=
  let '(a, thrown) :=
    match r with
    | Rejected e => (a, Some e)
    | NotJson e => (a, Some e)
    | Json false err _ =>
        (a, Some (Error (or_else err (lit "Erreur lors de la recherche"))))
    | Json true _ stations =>
        let data := match stations with Some l => l | None => [] end in
        appliquerFiltres c
          {| stationsData := data; filteredStations := data;
             isLoading := isLoading a; resultats := resultats a |}
    end in
  set_isLoading false
    match thrown with
    | Some e => showError e a
    | None => a
    end.

(** ** The page as a transition system *)

Record System := {
  app : App;
  pending : nat
}.

Inductive event :=
  | Rechercher (c : Controls)
  | Reponse (c : Controls) (r : response)
  | Filtrer (c : Controls)
  | Reinitialiser (c : Controls).

Definition fetches (effects : list effect) : nat :=
  List.length
    (filter (fun e => match e with Fetch _ => true | _ => false end)
       effects).

(** One event handled to completion.  A response can only arrive for a
    request that is pending. *)
Definition step (s : System) (e : event) : option System :=
  match e with
  | Rechercher c =>
      let (a, effects) := rechercherStations c (app s) in
      Some {| app := a; pending := (pending s + fetches effects)%nat |}
  | Reponse c r =>
      match pending s with
      | O => None
      | S n =>
          Some {| app := rechercherStations_suite c r (app s);
                  pending := n |}
      end
  | Filtrer c =>
      Some {| app := fst (appliquerFiltres c (app s));
              pending := pending s |}
  | Reinitialiser c =>
      Some {| app := fst (reinitialiserFiltres c (app s));
              pending := pending s |}
  end.

Fixpoint run (s : System) (events : list event) : option System :=
  match events with
  | [] => Some s
  | e :: t =>
      match step s e with
      | Some s' => run s' t
      | None => None
      end
  end.

Definition start : System := {| app := initial; pending := 0 |}.

End Carburant.

(** ** Notions the properties are stated with *)

Definition isInf (x : number) : bool :=
  match x with S754_infinity false => true | _ => false end.

Section Placement.
Context {A : Type}.
Variable key : A -> number.

(** No element whose key is +Infinity comes before one whose key is not. *)
Fixpoint inf_last (l : list A) : Prop :=
  match l with
  | [] => True
  | a :: t =>
      (isInf (key a) = true -> Forall (fun b => isInf (key b) = true) t)
      /\ inf_last t
  end.

(** No element whose key is +Infinity comes after one whose key is not. *)
Fixpoint inf_first (l : list A) : Prop :=
  match l with
  | [] => True
  | a :: t =>
      (isInf (key a) = false -> Forall (fun b => isInf (key b) = false) t)
      /\ inf_first t
  end.
End Placement.

(** The sort keys [trierStations] has a case for, the empty one apart. *)
Definition sort_keys : list jsstring :=
  [lit "date-maj"; lit "prix-croissant"; lit "prix-decroissant";
   lit "ville-az"; lit "marque-az"].

Definition with_triSelect (tri : option jsstring) (c : Controls) : Controls :=
  {| villeInput := villeInput c;
     triSelect := tri;
     typeStationSelect := typeStationSelect c;
     horairesSelect := horairesSelect c;
     selectedFuels := selectedFuels c |}.

Definition with_prix (l : list PriceEntry) (s : Station) : Station :=
  {| marque := marque s; adresse := adresse s; cp := cp s; ville := ville s;
     type := type s; automate_24h := automate_24h s; horaires := horaires s;
     latitude := latitude s; longitude := longitude s; prix := Some l |}.

(** The entry with [valeur || 0] in place of its value. *)
Definition defaulted (p : PriceEntry) : PriceEntry :=
  {| nom := nom p; valeur := valeur_or_0 p; maj := maj p |}.

(** The three filters of [appliquerFiltres], to state that their order
    does not matter. *)
Inductive filtre := ParType | ParHoraires | ParCarburants.

(** One filter, as [appliquerFiltres] applies it. *)
Definition appliquer_filtre (c : Controls) (f : filtre)
  (stations : list Station) : result (list Station) :=
  match f with
  | ParType => Ok (filtrerType (or_else (typeStationSelect c) []) stations)
  | ParHoraires =>
      Ok (filtrerHoraires (or_else (horairesSelect c) []) stations)
  | ParCarburants => filtrerCarburants (selectedFuels c) stations
  end.

(** The filters applied one after the other in a given order. *)
Fixpoint filtrer_dans_l_ordre (c : Controls) (ordre : list filtre)
  (stations : list Station) : result (list Station) :=
  match ordre with
  | [] => Ok stations
  | f :: t =>
      l <- appliquer_filtre c f stations ;; filtrer_dans_l_ordre c t l
  end.

(** What each filter keeps, for a station that has a price list. *)
Definition garde (c : Controls) (f : filtre) (s : Station) : bool :=
  match f with
  | ParType =>
      let t := or_else (typeStationSelect c) [] in
      if str_eqb t (lit "autoroute") then field_is (type s) (lit "Autoroute")
      else if str_eqb t (lit "route") then field_is (type s) (lit "Route")
      else true
  | ParHoraires =>
      let h := or_else (horairesSelect c) [] in
      if str_eqb h (lit "24h") then truthy (automate_24h s)
      else if str_eqb h (lit "ouvert") then
        negb (field_is (horaires s) (lit "Horaires non disponibles"))
        || truthy (automate_24h s)
      else true
  | ParCarburants =>
      match selectedFuels c, prix s with
      | [], _ => true
      | fuels, Some l =>
          existsb (fun fuel => existsb (fun p => str_eqb (nom p) fuel) l) fuels
      | _, None => false
      end
  end.

Definition a_des_prix (s : Station) : Prop := prix s <> None.


(** The age classes as the comparisons of [getDataAge] give them. *)
Definition classe (diff : Z) : age :=
  if diff <=? 7 * msPerDay then fresh
  else if diff <=? 30 * msPerDay then old
  else stale.

(** The coordinates read as numbers that are not zero once divided by
    10^5. *)
Definition coordonnees_utilisables (station : Station) : bool :=
  negb (isNaN (degrees (latitude station)))
  && negb (is_zero (degrees (latitude station)))
  && negb (isNaN (degrees (longitude station)))
  && negb (is_zero (degrees (longitude station))).

(** No surrogate code unit outside a pair. *)
Fixpoint bien_forme (s : jsstring) : bool :=
  match s with
  | [] => true
  | c :: t =>
      if is_lead_surrogate c then
        match t with
        | c2 :: t' => is_trail_surrogate c2 && bien_forme t'
        | [] => false
        end
      else negb (is_trail_surrogate c) && bien_forme t
  end.

(** The search did not succeed: the request was rejected, the body was not
    JSON, or the status was not a success. *)
Definition echec (r : response) : bool :=
  match r with
  | Json true _ _ => false
  | _ => true
  end.

(** At most one request is pending, and one is exactly while [isLoading]
    is set. *)
Definition une_requete_au_plus (s : System) : Prop :=
  pending s = if isLoading (app s) then 1%nat else 0%nat.

(** ** Sample data *)

(** A host whose local time is UTC. *)
Definition utc_host : Z -> Z := fun t => t.

(** A host that collates strings by code unit. *)
Fixpoint ordinal_compare (a b : jsstring) : Z :=
  match a, b with
  | [], [] => 0
  | [], _ :: _ => -1
  | _ :: _, [] => 1
  | x :: a', y :: b' =>
      match N.compare x y with
      | Lt => -1
      | Gt => 1
      | Eq => ordinal_compare a' b'
      end
  end.

Definition a_grave : code_unit := 224%N.

(** ["15/01/2025 à 08:00"] *)
Definition maj_2025_01_15 : jsstring :=
  lit "15/01/2025 " ++ [a_grave] ++ lit " 08:00".

(** ["01/06/2024 à 12:30"] *)
Definition maj_2024_06_01 : jsstring :=
  lit "01/06/2024 " ++ [a_grave] ++ lit " 12:30".

Definition price (n v : string) (m : jsstring) : PriceEntry :=
  {| nom := lit n; valeur := VNum (parseFloat_string (lit v));
     maj := VStr m |}.

(** A motorway station in Paris with two prices and coordinates. *)
Definition station_autoroute : Station :=
  {| marque := Some (lit "Total");
     adresse := Some (lit "12 rue de Rivoli");
     cp := Some (lit "75001");
     ville := Some (lit "Paris");
     type := Some (lit "Autoroute");
     automate_24h := VBool true;
     horaires := Some (lit "Automate 24-24");
     latitude := VStr (lit "4885000");
     longitude := VStr (lit "235000");
     prix := Some [price "SP95" "1.850" maj_2025_01_15;
                   price "Gazole" "1.720" maj_2025_01_15] |}.

(** A road station in Paris with no price and no coordinates. *)
Definition station_route : Station :=
  {| marque := Some (lit "Station-service");
     adresse := Some (lit "3 avenue de Clichy");
     cp := Some (lit "75017");
     ville := Some (lit "Paris");
     type := Some (lit "Route");
     automate_24h := VBool false;
     horaires := Some (lit "Horaires non disponibles");
     latitude := VNum zero;
     longitude := VNum zero;
     prix := Some [] |}.

(** A road station with one price, last updated in June 2024. *)
Definition station_ancienne : Station :=
  {| marque := Some (lit "Esso");
     adresse := Some (lit "8 boulevard Voltaire");
     cp := Some (lit "75011");
     ville := Some (lit "Paris");
     type := Some (lit "Route");
     automate_24h := VBool false;
     horaires := Some (lit "Horaires non disponibles");
     latitude := VUndefined;
     longitude := VUndefined;
     prix := Some [price "E10" "1.799" maj_2024_06_01] |}.

Definition no_filter : Controls :=
  {| villeInput := lit "Paris";
     triSelect := Some (lit "date-maj");
     typeStationSelect := Some [];
     horairesSelect := Some [];
     selectedFuels := [] |}.

Definition sample_stations : list Station :=
  [station_autoroute; station_route; station_ancienne].

(** A station one of whose prices is the text ["N/A"]. *)
Definition station_na : Station :=
  with_prix
    [price "SP95" "1.850" maj_2025_01_15;
     {| nom := lit "Gazole"; valeur := VStr (lit "N/A");
        maj := VStr maj_2025_01_15 |}]
    station_autoroute.

(** The same station with the number 0 in place of that text. *)
Definition station_na_as_0 : Station :=
  with_prix
    [price "SP95" "1.850" maj_2025_01_15;
     {| nom := lit "Gazole"; valeur := VNum zero;
        maj := VStr maj_2025_01_15 |}]
    station_autoroute.

(** A station whose two prices carry no value. *)
Definition station_sans_valeur : Station :=
  with_prix
    [{| nom := lit "SP95"; valeur := VUndefined; maj := VStr non_renseigne |};
     {| nom := lit "Gazole"; valeur := VNull; maj := VUndefined |}]
    station_autoroute.

(** Motorway stations that sell SP95. *)
Definition autoroute_sp95 : Controls :=
  {| villeInput := lit "Paris";
     triSelect := Some (lit "prix-croissant");
     typeStationSelect := Some (lit "autoroute");
     horairesSelect := Some [];
     selectedFuels := [lit "SP95"] |}.

(** A station whose brand is a lone surrogate code unit. *)
Definition station_surrogate : Station :=
  {| marque := Some [55296%N];
     adresse := Some (lit "1 place de la Gare");
     cp := Some (lit "69000");
     ville := Some (lit "Lyon");
     type := Some (lit "Route");
     automate_24h := VBool false;
     horaires := None;
     latitude := VUndefined;
     longitude := VUndefined;
     prix := Some [] |}.

(** A success response without any station. *)
Definition reponse_vide : response := Json true None (Some []).

(** Only stations that are open around the clock. *)
Definition ouvert_24h : Controls :=
  {| villeInput := lit "Paris";
     triSelect := Some (lit "date-maj");
     typeStationSelect := Some [];
     horairesSelect := Some (lit "24h");
     selectedFuels := [] |}.

(** ** The station name and the advanced search panel *)

Section Nom.

(** [String.prototype.toUpperCase] and [toLowerCase]: the case mappings of
    Unicode, which are the host's tables. *)
Variable toUpperCase toLowerCase : jsstring -> jsstring.

(** [s.charAt(0)] *)
Definition charAt0 (s : jsstring) : jsstring :=
  match s with
  | c :: _ => [c]
  | [] => []
  end.

(** [s.slice(1)] *)
Definition slice1 (s : jsstring) : jsstring :=
  match s with
  | _ :: t => t
  | [] => []
  end.

(** [s.split(' ')]: the pieces between the spaces; there is always at
    least one. *)
Fixpoint split_space (s : jsstring) : list jsstring :=
  match s with
  | [] => [[]]
  | c :: t =>
      if (c =? 32)%N then [] :: split_space t
      else
        match split_space t with
        | w :: ws => (c :: w) :: ws
        | [] => [[c]]
        end
  end.

(** [words.join(' ')] *)
Fixpoint join_space (words : list jsstring) : jsstring :=
  match words with
  | [] => []
  | w :: t =>
      match t with
      | [] => w
      | _ :: _ => w ++ 32%N :: join_space t
      end
  end.

(** [s.includes(' ')] *)
Definition includes_space (s : jsstring) : bool :=
  existsb (fun c => (c =? 32)%N) s.

(** [word.charAt(0).toUpperCase() + word.slice(1).toLowerCase()] *)
Definition capitalise (word : jsstring) : jsstring :=
  toUpperCase (charAt0 word) ++ toLowerCase (slice1 word).

Definition formatNomStation (marque adresse : option jsstring) : jsstring :=
  let m := or_else marque [] in
  if str_eqb m [] || str_eqb m (lit "Station-service") then
    match adresse with
    | Some (c :: a) =>
        match split_space (c :: a) with
        | w :: _ => w
        | [] => lit "Station-service"
        end
    | _ => lit "Station-service"
    end
  else if includes_space m then
    join_space (List.map capitalise (split_space m))
  else capitalise m.

End Nom.

(** The two labels of the link that opens the advanced search:
    ["Recherche avancée"] and ["Masquer la recherche avancée"]. *)
Inductive toggle_label := LabelOpen | LabelHide.

(** The advanced search panel: the [display] style of the [advancedSearch]
    element and the label of the link. *)
Record Panel := {
  advanced_display : jsstring;
  toggle_html : toggle_label
}.

(** [toggleAdvancedSearch]; the panel is [None] when one of the two
    elements is not in the page. *)
Definition toggleAdvancedSearch (p : option Panel) : option Panel :=
  match p with
  | None => None
  | Some p =>
      let isVisible := negb (str_eqb (advanced_display p) (lit "none")) in
      Some {| advanced_display := if isVisible then lit "none" else lit "block";
              toggle_html := if isVisible then LabelOpen else LabelHide |}
  end.

(** ** Further notions *)

(** The age classes from the freshest to the oldest. *)
Definition rang (a : age) : Z :=
  match a with
  | fresh => 0
  | old => 1
  | stale => 2
  end.

Definition with_horaires (h : jsstring) (c : Controls) : Controls :=
  {| villeInput := villeInput c;
     triSelect := triSelect c;
     typeStationSelect := typeStationSelect c;
     horairesSelect := Some h;
     selectedFuels := selectedFuels c |}.

Definition with_fuels (fuels : list jsstring) (c : Controls) : Controls :=
  {| villeInput := villeInput c;
     triSelect := triSelect c;
     typeStationSelect := typeStationSelect c;
     horairesSelect := horairesSelect c;
     selectedFuels := fuels |}.

(** What the three filters keep together. *)
Definition garde_tous (c : Controls) (s : Station) : bool :=
  garde c ParType s && garde c ParHoraires s && garde c ParCarburants s.

(** Every price of the station has a Number for value. *)
Definition prix_numeriques (s : Station) : bool :=
  match prix s with
  | None => true
  | Some l =>
      forallb (fun p => match valeur p with VNum _ => true | _ => false end) l
  end.

(** A code unit is below 2^16. *)
Definition unite_valide (c : code_unit) : Prop := (c < 65536)%N.

(** A character that needs no escape in a URL component, or the percent
    sign of an escape. *)
Definition url_safe (c : code_unit) : bool := uri_unreserved c || (c =? 37)%N.

(** Equality of two Numbers as data: same class, sign, mantissa and
    exponent. *)
Definition num_same (x y : number) : bool :=
  match x, y with
  | S754_zero a, S754_zero b => Bool.eqb a b
  | S754_infinity a, S754_infinity b => Bool.eqb a b
  | S754_nan, S754_nan => true
  | S754_finite a m e, S754_finite b n f =>
      Bool.eqb a b && Pos.eqb m n && Z.eqb e f
  | _, _ => false
  end.

(** A station with a price of which the value is missing. *)
Definition station_valeur_absente : Station :=
  with_prix
    [price "SP95" "1.850" maj_2025_01_15;
     {| nom := lit "Gazole"; valeur := VUndefined;
        maj := VStr maj_2025_01_15 |}]
    station_autoroute.

(** A city field that holds two spaces and a tab. *)
Definition ville_blanche : Controls :=
  {| villeInput := [32%N; 32%N; 9%N];
     triSelect := Some (lit "date-maj");
     typeStationSelect := Some [];
     horairesSelect := Some [];
     selectedFuels := [] |}.

Definition with_coordinates (lat lon : value) (s : Station) : Station :=
  {| marque := marque s; adresse := adresse s; cp := cp s; ville := ville s;
     type := type s; automate_24h := automate_24h s; horaires := horaires s;
     latitude := lat; longitude := lon; prix := prix s |}.

(** An ASCII-only stand-in for the case mappings of a host, for examples:
    letters [a] to [z] and [A] to [Z] change case, the rest is kept. *)
Definition ascii_upper (s : jsstring) : jsstring :=
  List.map (fun c => if ((97 <=? c) && (c <=? 122))%N then (c - 32)%N else c) s.

Definition ascii_lower (s : jsstring) : jsstring :=
  List.map (fun c => if ((65 <=? c) && (c <=? 90))%N then (c + 32)%N else c) s.

(** The average as it is specified for falsy values: the sum of the values
    read by [parseFloat], a falsy value counting as the number 0, divided
    by the number of prices, the falsy ones included. *)
Definition moyenne_falsy_0 (l : list PriceEntry) : number :=
  num_div
    (fold_left
       (fun sum p =>
          num_add sum
            (if truthy (valeur p) then parseFloat (valeur p) else zero))
       l zero)
    (num_of_Z (Z.of_nat (List.length l))).



(** The sort key is one of the two that compare average prices. *)
Definition tri_par_prix (tri : jsstring) : bool :=
  str_eqb tri (lit "prix-croissant") || str_eqb tri (lit "prix-decroissant").

(** * Properties *)

(** ** The stable sort *)

Section SortFacts.
Context {A : Type}.
Variable cmp : A -> A -> Z.

Lemma Forall_insert_sorted (P : A -> Prop) x l :
  P x -> Forall P l -> Forall P (insert_sorted cmp x l).
Proof.
  intros Hx Hl. induction Hl as [|y t Hy Ht IH]; simpl.
  - constructor; [exact Hx | constructor].
  - destruct (0 <? cmp x y).
    + constructor; assumption.
    + constructor; [exact Hx | constructor; assumption].
Qed.

Lemma Forall_sort (P : A -> Prop) l : Forall P l -> Forall P (sort cmp l).
Proof.
  induction 1 as [|x t Hx Ht IH]; simpl.
  - constructor.
  - apply Forall_insert_sorted; assumption.
Qed.
End SortFacts.

(** ** Subtracting averages when one of them is +Infinity *)

Lemma sub_Infinity_r x : sign_of (num_sub x Infinity) <= 0.
Proof. destruct x as [s|[|]| |s m e]; simpl; lia. Qed.

Lemma sub_Infinity_l y :
  isNaN y = false -> isInf y = false -> sign_of (num_sub Infinity y) = 1.
Proof. destruct y as [s|[|]| |s m e]; simpl; intros; congruence. Qed.

Lemma sub_Infinity_r_neg x :
  isNaN x = false -> isInf x = false -> sign_of (num_sub x Infinity) = -1.
Proof. destruct x as [s|[|]| |s m e]; simpl; intros; congruence. Qed.

Lemma isInf_Infinity x : isInf x = true -> x = Infinity.
Proof.
  destruct x as [s|[|]| |s m e]; simpl; intros; try discriminate.
  reflexivity.
Qed.

Lemma isInf_not_Finite x : isInf x = true -> isFinite x = false.
Proof. destruct x as [s|[|]| |s m e]; simpl; intros; congruence. Qed.

Section PlacementFacts.
Context {A : Type}.
Variable key : A -> number.

Let ascending (a b : A) : Z := sign_of (num_sub (key a) (key b)).
Let descending (a b : A) : Z := sign_of (num_sub (key b) (key a)).
Let number_key (a : A) : Prop := isNaN (key a) = false.

Lemma inf_last_insert x l :
  Forall number_key l -> inf_last key l ->
  inf_last key (insert_sorted ascending x l).
Proof.
  induction l as [|y t IH]; intros Hn Hl; simpl.
  - split; [intros _; constructor | exact I].
  - inversion Hn as [|? ? Hy Ht]; subst. destruct Hl as [Hy_last Ht_last].
    destruct (0 <? ascending x y) eqn:Hc.
    + apply Z.ltb_lt in Hc. split.
      * intros Hinf. exfalso. unfold ascending in Hc.
        rewrite (isInf_Infinity _ Hinf) in Hc.
        pose proof (sub_Infinity_r (key x)). lia.
      * apply IH; assumption.
    + apply Z.ltb_ge in Hc. split; [|split; assumption].
      intros Hinf. unfold ascending in Hc.
      rewrite (isInf_Infinity _ Hinf) in Hc.
      destruct (isInf (key y)) eqn:Hy_inf.
      * constructor; [exact Hy_inf | apply Hy_last; reflexivity].
      * rewrite (sub_Infinity_l _ Hy Hy_inf) in Hc. lia.
Qed.

Lemma inf_last_sort l :
  Forall number_key l -> inf_last key (sort ascending l).
Proof.
  induction 1 as [|x t Hx Ht IH]; simpl.
  - exact I.
  - apply inf_last_insert; [apply Forall_sort; exact Ht | exact IH].
Qed.

Lemma inf_last_after l1 a l2 :
  inf_last key (l1 ++ a :: l2) -> isInf (key a) = true ->
  Forall (fun b => isInf (key b) = true) l2.
Proof.
  induction l1 as [|y t IH]; simpl; intros [Hhead Htail] Ha.
  - apply Hhead, Ha.
  - apply IH; assumption.
Qed.

Lemma inf_first_insert x l :
  number_key x -> Forall number_key l -> inf_first key l ->
  inf_first key (insert_sorted descending x l).
Proof.
  intros Hx. induction l as [|y t IH]; intros Hn Hl; simpl.
  - split; [intros _; constructor | exact I].
  - inversion Hn as [|? ? Hy Ht]; subst. destruct Hl as [Hy_first Ht_first].
    destruct (0 <? descending x y) eqn:Hc.
    + apply Z.ltb_lt in Hc. split; [|apply IH; assumption].
      intros Hy_fin. apply Forall_insert_sorted; [|apply Hy_first, Hy_fin].
      destruct (isInf (key x)) eqn:Hx_inf; [|reflexivity].
      unfold descending in Hc. rewrite (isInf_Infinity _ Hx_inf) in Hc.
      rewrite (sub_Infinity_r_neg _ Hy Hy_fin) in Hc. lia.
    + apply Z.ltb_ge in Hc. split; [|split; assumption].
      intros Hx_fin. unfold descending in Hc.
      destruct (isInf (key y)) eqn:Hy_inf.
      * rewrite (isInf_Infinity _ Hy_inf) in Hc.
        rewrite (sub_Infinity_l _ Hx Hx_fin) in Hc. lia.
      * constructor; [exact Hy_inf | apply Hy_first; reflexivity].
Qed.

Lemma inf_first_sort l :
  Forall number_key l -> inf_first key (sort descending l).
Proof.
  induction 1 as [|x t Hx Ht IH]; simpl.
  - exact I.
  - apply inf_first_insert;
      [exact Hx | apply Forall_sort; exact Ht | exact IH].
Qed.

Lemma inf_first_before l1 a l2 :
  inf_first key (l1 ++ a :: l2) -> isInf (key a) = true ->
  Forall (fun b => isInf (key b) = true) l1.
Proof.
  induction l1 as [|y t IH]; simpl; intros [Hhead Htail] Ha.
  - constructor.
  - constructor; [|apply IH; assumption].
    destruct (isInf (key y)) eqn:Hy; [reflexivity|].
    specialize (Hhead eq_refl). rewrite Forall_forall in Hhead.
    rewrite (Hhead a) in Ha; [discriminate|].
    apply in_or_app. right. left. reflexivity.
Qed.
End PlacementFacts.

(** ** Price order *)

(** C1 (amended).  [getPrixMoyen] is +Infinity for a station whose price
    list is empty.  In a collection none of whose averages is NaN, sorting
    by [prix-croissant] leaves no station with a finite average after a
    station without prices, and sorting by [prix-decroissant] leaves no
    station with a finite average before one: stations without prices come
    last in ascending order and first in descending order. *)
Theorem prix_sort_places_no_price_stations
  (UTC : Z -> Z) (localeCompare : jsstring -> jsstring -> Z)
  (stations : list Station) :
  Forall (fun s => isNaN (getPrixMoyen s) = false) stations ->
  (forall s, prix s = Some [] -> getPrixMoyen s = Infinity)
  /\ (forall l1 a l2,
        trierStations UTC localeCompare stations (lit "prix-croissant")
          = l1 ++ a :: l2 ->
        prix a = Some [] ->
        forall b, In b l2 -> isFinite (getPrixMoyen b) = false)
  /\ (forall l1 a l2,
        trierStations UTC localeCompare stations (lit "prix-decroissant")
          = l1 ++ a :: l2 ->
        prix a = Some [] ->
        forall b, In b l1 -> isFinite (getPrixMoyen b) = false).
Proof.
  intros Hnum.
  assert (Hempty : forall s, prix s = Some [] -> getPrixMoyen s = Infinity).
  { intros s Hs. unfold getPrixMoyen. rewrite Hs. reflexivity. }
  split; [exact Hempty|]. split.
  - intros l1 a l2 Hsort Ha b Hb.
    change (trierStations UTC localeCompare stations (lit "prix-croissant"))
      with (sort (fun x y => sign_of (num_sub (getPrixMoyen x) (getPrixMoyen y)))
              stations) in Hsort.
    pose proof (inf_last_sort getPrixMoyen stations Hnum) as Hlast.
    rewrite Hsort in Hlast.
    apply inf_last_after in Hlast; [|rewrite (Hempty a Ha); reflexivity].
    rewrite Forall_forall in Hlast. apply isInf_not_Finite, Hlast, Hb.
  - intros l1 a l2 Hsort Ha b Hb.
    change (trierStations UTC localeCompare stations (lit "prix-decroissant"))
      with (sort (fun x y => sign_of (num_sub (getPrixMoyen y) (getPrixMoyen x)))
              stations) in Hsort.
    pose proof (inf_first_sort getPrixMoyen stations Hnum) as Hfirst.
    rewrite Hsort in Hfirst.
    apply inf_first_before in Hfirst; [|rewrite (Hempty a Ha); reflexivity].
    rewrite Forall_forall in Hfirst. apply isInf_not_Finite, Hfirst, Hb.
Qed.

Lemma prix_sort_places_no_price_stations_witness :
  Forall (fun s => isNaN (getPrixMoyen s) = false) sample_stations
  /\ forall l1 a l2,
       trierStations utc_host ordinal_compare sample_stations
         (lit "prix-croissant") = l1 ++ a :: l2 ->
       prix a = Some [] ->
       forall b, In b l2 -> isFinite (getPrixMoyen b) = false.
Proof.
  assert (H : Forall (fun s => isNaN (getPrixMoyen s) = false) sample_stations).
  { repeat constructor. }
  split; [exact H|].
  exact (proj1 (proj2 (prix_sort_places_no_price_stations
                         utc_host ordinal_compare sample_stations H))).
Defined.

(** C1, as stated, fails for [prix-decroissant]: the station without
    prices is placed before the station whose average is finite. *)
Lemma prix_decroissant_puts_no_price_first :
  prix station_route = Some []
  /\ isFinite (getPrixMoyen station_autoroute) = true
  /\ trierStations utc_host ordinal_compare
       [station_autoroute; station_route] (lit "prix-decroissant")
     = [station_route; station_autoroute].
Proof. repeat split; vm_compute; reflexivity. Qed.

(** ** Sort keys *)

Lemma str_eqb_eq a b : str_eqb a b = true <-> a = b.
Proof.
  revert b. induction a as [|x a IH]; intros [|y b]; simpl;
    try (split; [discriminate | congruence]).
  - split; reflexivity.
  - rewrite andb_true_iff, N.eqb_eq, IH. split.
    + intros [-> ->]. reflexivity.
    + intros H. injection H as -> ->. split; reflexivity.
Qed.

Lemma str_eqb_neq a b : a <> b -> str_eqb a b = false.
Proof.
  intros H. destruct (str_eqb a b) eqn:E; [|reflexivity].
  apply str_eqb_eq in E. contradiction.
Qed.

(** C2 (amended).  The empty sort key, and a sort control that is empty or
    missing, order the stations as [date-maj] does.  Any other key outside
    the five of the enumeration leaves the stations in the order they were
    given in: no comparator is applied. *)
Theorem unknown_sort_key_keeps_order
  (UTC : Z -> Z) (localeCompare : jsstring -> jsstring -> Z)
  (stations : list Station) :
  trierStations UTC localeCompare stations []
    = trierStations UTC localeCompare stations (lit "date-maj")
  /\ (forall c a,
        triSelect c = None \/ triSelect c = Some [] ->
        appliquerFiltres UTC localeCompare c a
          = appliquerFiltres UTC localeCompare
              (with_triSelect (Some (lit "date-maj")) c) a)
  /\ (forall tri,
        tri <> [] -> ~ In tri sort_keys ->
        trierStations UTC localeCompare stations tri = stations).
Proof.
  split; [reflexivity|]. split.
  - intros c a [H|H]; unfold appliquerFiltres, filtrer, afficherResultats;
      simpl; rewrite H; reflexivity.
  - intros tri Hne Hnot. unfold trierStations.
    rewrite !str_eqb_neq; [reflexivity| | | | | |];
      intros ->; try (apply Hne; reflexivity);
      apply Hnot; unfold sort_keys; simpl; tauto.
Qed.

Lemma unknown_sort_key_keeps_order_witness :
  trierStations utc_host ordinal_compare sample_stations (lit "prix")
    = sample_stations.
Proof.
  refine (proj2 (proj2 (unknown_sort_key_keeps_order
                          utc_host ordinal_compare sample_stations))
            (lit "prix") _ _).
  - discriminate.
  - unfold sort_keys. simpl. intros H.
    repeat (destruct H as [H|H]; [discriminate H|]). exact H.
Defined.

(** C2, as stated, fails for a key that is neither empty nor one of the
    five: the stations stay as given, which here is not the [date-maj]
    order. *)
Lemma unknown_sort_key_is_not_date_maj :
  ~ In (lit "prix") sort_keys
  /\ trierStations utc_host ordinal_compare
       [station_ancienne; station_autoroute] (lit "prix")
     = [station_ancienne; station_autoroute]
  /\ trierStations utc_host ordinal_compare
       [station_ancienne; station_autoroute] (lit "date-maj")
     = [station_autoroute; station_ancienne]
  /\ trierStations utc_host ordinal_compare
       [station_ancienne; station_autoroute] (lit "prix")
     <> trierStations utc_host ordinal_compare
          [station_ancienne; station_autoroute] (lit "date-maj").
Proof.
  split; [|split; [|split]]; try (vm_compute; reflexivity).
  - unfold sort_keys. simpl. intros H.
    repeat (destruct H as [H|H]; [discriminate H|]). exact H.
  - intros H. apply (f_equal (List.map marque)) in H.
    vm_compute in H. discriminate H.
Qed.

(** ** Average price *)

Lemma digits2_pos_bounds p :
  2 ^ (Zpos (digits2_pos p) - 1) <= Zpos p < 2 ^ Zpos (digits2_pos p).
Proof.
  induction p as [p IH|p IH|]; simpl digits2_pos;
    [change (Zpos p~1) with (2 * Zpos p + 1)
    |change (Zpos p~0) with (2 * Zpos p)
    |simpl; lia];
    rewrite Pos2Z.inj_succ;
    replace (Z.succ (Zpos (digits2_pos p)) - 1)
      with (Zpos (digits2_pos p)) by lia;
    rewrite Z.pow_succ_r by lia;
    assert (H : 2 ^ Zpos (digits2_pos p)
                = 2 * 2 ^ (Zpos (digits2_pos p) - 1))
      by (rewrite <- Z.pow_succ_r by lia; f_equal; lia);
    revert IH H;
    generalize (2 ^ Zpos (digits2_pos p)),
               (2 ^ (Zpos (digits2_pos p) - 1));
    intros; lia.
Qed.

Lemma digits2_pos_shift p k :
  digits2_pos (Pos.iter xO p k) = (digits2_pos p + k)%positive.
Proof.
  induction k as [|k IH] using Pos.peano_ind.
  - simpl. lia.
  - rewrite Pos.iter_succ. simpl. rewrite IH. lia.
Qed.

(** A mantissa of exactly 53 bits with an exponent in range is a Number as
    it stands. *)
Lemma binary_round_aux_exact s m e :
  Zpos (digits2_pos m) = 53 -> -1074 <= e <= 971 ->
  binary_round_aux prec emax s (Zpos m) e loc_Exact = S754_finite s m e.
Proof.
  intros Hd He.
  assert (Hshift : fexp prec emax (Zpos (digits2_pos m) + e) - e = 0).
  { unfold fexp, emin, prec, emax. rewrite Hd. lia. }
  unfold binary_round_aux, shr_fexp. simpl Zdigits2. rewrite Hshift.
  cbn [shr shr_record_of_loc shr_m loc_of_shr_record round_nearest_even
       Zdigits2].
  rewrite Hshift. cbn [shr shr_record_of_loc shr_m].
  replace (e <=? emax - prec) with true; [reflexivity|].
  symmetry. apply Z.leb_le. unfold emax, prec. lia.
Qed.

(** The Number of a positive integer below 2^53 is finite and positive. *)
Lemma num_of_Z_small z :
  0 < z < 2 ^ 53 -> exists m e, num_of_Z z = S754_finite false m e.
Proof.
  intros Hz. destruct z as [|p|p]; try lia.
  pose proof (digits2_pos_bounds p) as Hb.
  assert (Hd : Zpos (digits2_pos p) <= 53).
  { destruct (Z_le_gt_dec (Zpos (digits2_pos p)) 53) as [H|H]; [exact H|].
    exfalso.
    assert (2 ^ 53 <= 2 ^ (Zpos (digits2_pos p) - 1))
      by (apply Z.pow_le_mono_r; lia).
    lia. }
  unfold num_of_Z, binary_normalize, binary_round.
  assert (Hf : fexp prec emax (Zpos (digits2_pos p) + 0)
               = Zpos (digits2_pos p) - 53).
  { unfold fexp, emin, prec, emax. lia. }
  rewrite Hf. unfold shl_align.
  destruct (Zpos (digits2_pos p) - 53 - 0) as [|d|d] eqn:Hsub; try lia.
  - replace (Zpos (digits2_pos p) - 53) with 0 in Hsub |- * by lia.
    rewrite binary_round_aux_exact by lia. eauto.
  - rewrite binary_round_aux_exact; [eauto| |lia].
    rewrite digits2_pos_shift. lia.
Qed.

Lemma sum_of_defaults l :
  Forall (fun p => truthy (valeur p) = false) l ->
  fold_left (fun sum p => num_add sum (parseFloat (valeur_or_0 p))) l zero
  = zero.
Proof.
  induction 1 as [|p t Hp Ht IH]; simpl; [reflexivity|].
  unfold valeur_or_0 at 2. rewrite Hp. exact IH.
Qed.

Lemma valeur_or_0_defaulted p : valeur_or_0 (defaulted p) = valeur_or_0 p.
Proof.
  unfold defaulted, valeur_or_0. simpl.
  destruct (truthy (valeur p)) eqn:E; simpl; [rewrite E|]; reflexivity.
Qed.

Lemma sum_defaulted l acc :
  fold_left (fun sum p => num_add sum (parseFloat (valeur_or_0 p)))
    (List.map defaulted l) acc
  = fold_left (fun sum p => num_add sum (parseFloat (valeur_or_0 p))) l acc.
Proof.
  revert acc. induction l as [|p t IH]; intros acc; simpl; [reflexivity|].
  rewrite valeur_or_0_defaulted. apply IH.
Qed.

Lemma getPrixMoyen_some station p t :
  prix station = Some (p :: t) ->
  getPrixMoyen station
  = num_div
      (fold_left (fun sum q => num_add sum (parseFloat (valeur_or_0 q)))
         (p :: t) zero)
      (num_of_Z (Z.of_nat (List.length (p :: t)))).
Proof. intros H. unfold getPrixMoyen. rewrite H. reflexivity. Qed.

Lemma sum_falsy_0 l : forall acc,
  fold_left (fun sum p => num_add sum (parseFloat (valeur_or_0 p))) l acc
  = fold_left
      (fun sum p =>
         num_add sum
           (if truthy (valeur p) then parseFloat (valeur p) else zero))
      l acc.
Proof.
  induction l as [|p t IH]; intros acc; simpl; [reflexivity|].
  rewrite <- IH. unfold valeur_or_0 at 2.
  destruct (truthy (valeur p)); reflexivity.
Qed.

(** C3 (amended).  For a station with at least one price, a price whose
    value is falsy (absent, null, false, 0, NaN or the empty string) enters
    the average as the number 0 and still counts in the denominator: the
    average is the sum of the values read by [parseFloat], with 0 for each
    falsy value, divided by the number of all the prices; it is the
    average of the list with [valeur || 0] in place of every value, and
    when every value is falsy it is 0, not NaN (an array has fewer than
    2^32 elements).  Nothing is said about a truthy value that does not
    read as a number. *)
Theorem getPrixMoyen_counts_falsy_as_0
  (station : Station) (l : list PriceEntry) :
  prix station = Some l -> l <> [] ->
  getPrixMoyen station = moyenne_falsy_0 l
  /\ getPrixMoyen station
     = getPrixMoyen (with_prix (List.map defaulted l) station)
  /\ (Forall (fun p => truthy (valeur p) = false) l ->
      Z.of_nat (List.length l) < 2 ^ 32 ->
      getPrixMoyen station = zero).
Proof.
  intros Hl Hne. destruct l as [|p t]; [contradiction|]. split; [|split].
  - rewrite (getPrixMoyen_some station p t Hl). unfold moyenne_falsy_0.
    rewrite sum_falsy_0. reflexivity.
  - rewrite (getPrixMoyen_some station p t Hl).
    rewrite (getPrixMoyen_some
               (with_prix (List.map defaulted (p :: t)) station)
               (defaulted p) (List.map defaulted t) eq_refl).
    change (defaulted p :: List.map defaulted t)
      with (List.map defaulted (p :: t)).
    rewrite sum_defaulted, List.length_map. reflexivity.
  - intros Hfalsy Hlen. rewrite (getPrixMoyen_some station p t Hl).
    rewrite sum_of_defaults by exact Hfalsy.
    destruct (num_of_Z_small (Z.of_nat (List.length (p :: t)))) as (m & e & ->).
    + split; [simpl List.length; lia|].
      assert (2 ^ 32 < 2 ^ 53) by (apply Z.pow_lt_mono_r; lia). lia.
    + reflexivity.
Qed.

Lemma getPrixMoyen_counts_falsy_as_0_witness :
  getPrixMoyen station_valeur_absente = parseFloat_string (lit "0.925")
  /\ getPrixMoyen station_sans_valeur = zero.
Proof.
  split.
  - refine (eq_trans
              (proj1 (getPrixMoyen_counts_falsy_as_0 station_valeur_absente
                        _ eq_refl _)) _).
    + discriminate.
    + vm_compute. reflexivity.
  - refine (proj2 (proj2 (getPrixMoyen_counts_falsy_as_0 station_sans_valeur
                            _ eq_refl _)) _ _).
    + discriminate.
    + repeat constructor.
    + reflexivity.
Defined.

(** C3, as stated, fails for a value that is truthy and does not read as a
    number: the text ["N/A"] is not replaced by 0, and the average is NaN
    where the number 0 in its place gives a finite average. *)
Lemma getPrixMoyen_non_numeric_text_is_NaN :
  getPrixMoyen station_na = NaN
  /\ isFinite (getPrixMoyen station_na_as_0) = true.
Proof. split; vm_compute; reflexivity. Qed.

(** ** Filters *)

Lemma filter_true {A} (l : list A) : filter (fun _ => true) l = l.
Proof. induction l as [|x t IH]; simpl; [|rewrite IH]; reflexivity. Qed.


Lemma Forall_filter {A} (P : A -> Prop) p (l : list A) :
  Forall P l -> Forall P (filter p l).
Proof.
  induction 1 as [|x t Hx Ht IH]; simpl; [constructor|].
  destruct (p x); [constructor|]; assumption.
Qed.

Lemma filter_result_total {A} (p : A -> result bool) (q : A -> bool) l :
  Forall (fun x => p x = Ok (q x)) l -> filter_result p l = Ok (filter q l).
Proof.
  induction 1 as [|x t Hx Ht IH]; simpl; [reflexivity|].
  rewrite Hx, IH. reflexivity.
Qed.

Lemma appliquer_filtre_garde c f stations :
  Forall a_des_prix stations ->
  appliquer_filtre c f stations = Ok (filter (garde c f) stations).
Proof.
  intros Hprix. destruct f; unfold appliquer_filtre, garde.
  - unfold filtrerType.
    destruct (or_else (typeStationSelect c) []) as [|x t] eqn:E.
    + cbv zeta. change (str_eqb [] (lit "autoroute")) with false.
      change (str_eqb [] (lit "route")) with false. cbv iota.
      rewrite filter_true. reflexivity.
    + cbv zeta. destruct (str_eqb (x :: t) (lit "autoroute")); [reflexivity|].
      destruct (str_eqb (x :: t) (lit "route")); [reflexivity|].
      rewrite filter_true. reflexivity.
  - unfold filtrerHoraires. cbv zeta.
    destruct (str_eqb _ (lit "24h")); [reflexivity|].
    destruct (str_eqb _ (lit "ouvert")); [reflexivity|].
    rewrite filter_true. reflexivity.
  - unfold filtrerCarburants.
    destruct (selectedFuels c) as [|fuel fuels] eqn:E.
    + rewrite filter_true. reflexivity.
    + apply filter_result_total.
      eapply Forall_impl; [|exact Hprix].
      intros s Hs. unfold a_carburant, a_des_prix in *.
      destruct (prix s); [reflexivity | contradiction].
Qed.

Lemma filtrer_dans_l_ordre_garde c ordre : forall stations,
  Forall a_des_prix stations ->
  filtrer_dans_l_ordre c ordre stations
  = Ok (fold_left (fun l f => filter (garde c f) l) ordre stations).
Proof.
  induction ordre as [|f t IH]; intros stations Hprix; simpl; [reflexivity|].
  rewrite appliquer_filtre_garde by exact Hprix. simpl.
  apply IH, Forall_filter, Hprix.
Qed.


Lemma filtrer_ordre_du_source c stations :
  filtrer c stations
  = filtrer_dans_l_ordre c [ParType; ParHoraires; ParCarburants] stations.
Proof.
  unfold filtrer. simpl.
  destruct (filtrerCarburants _ _); reflexivity.
Qed.

Lemma filter_result_Ok {A} (p : A -> result bool) l : forall l',
  filter_result p l = Ok l' ->
  l' = filter (fun x => match p x with Ok b => b | Throw _ => false end) l.
Proof.
  induction l as [|x t IH]; simpl; intros l' H.
  - injection H as <-. reflexivity.
  - destruct (p x) as [b|e]; [|discriminate H]. simpl in H.
    destruct (filter_result p t) as [r|e]; [|discriminate H]. simpl in H.
    injection H as <-. rewrite <- (IH r eq_refl). reflexivity.
Qed.

Lemma appliquer_filtre_Ok c f stations l :
  appliquer_filtre c f stations = Ok l -> l = filter (garde c f) stations.
Proof.
  destruct f.
  - unfold appliquer_filtre. intros H. injection H as <-.
    unfold filtrerType, garde.
    destruct (or_else (typeStationSelect c) []) as [|x t].
    + cbv zeta. change (str_eqb [] (lit "autoroute")) with false.
      change (str_eqb [] (lit "route")) with false. cbv iota.
      rewrite filter_true. reflexivity.
    + cbv zeta.
      destruct (str_eqb (x :: t) (lit "autoroute")); [reflexivity|].
      destruct (str_eqb (x :: t) (lit "route")); [reflexivity|].
      rewrite filter_true. reflexivity.
  - unfold appliquer_filtre. intros H. injection H as <-.
    unfold filtrerHoraires, garde. cbv zeta.
    destruct (str_eqb _ (lit "24h")); [reflexivity|].
    destruct (str_eqb _ (lit "ouvert")); [reflexivity|].
    rewrite filter_true. reflexivity.
  - unfold appliquer_filtre, filtrerCarburants, garde.
    destruct (selectedFuels c) as [|fuel fuels].
    + intros H. injection H as <-. rewrite filter_true. reflexivity.
    + intros H. apply filter_result_Ok in H. subst l.
      apply filter_ext. intros s. unfold a_carburant.
      destruct (prix s); reflexivity.
Qed.

Lemma filtrer_dans_l_ordre_Ok c ordre : forall stations l,
  filtrer_dans_l_ordre c ordre stations = Ok l ->
  l = fold_left (fun l f => filter (garde c f) l) ordre stations.
Proof.
  induction ordre as [|f t IH]; intros stations l H; simpl in *.
  - injection H as <-. reflexivity.
  - destruct (appliquer_filtre c f stations) as [l1|e] eqn:E;
      [|discriminate H].
    simpl in H. apply appliquer_filtre_Ok in E. subst l1.
    apply IH, H.
Qed.




(** ** Freshness *)

Lemma match_date_non_renseigne : match_date non_renseigne = None.
Proof. reflexivity. Qed.

Lemma getDataAge_matched UTC now s f :
  match_date s = Some f ->
  getDataAge UTC now (VStr s) = classe (now - instant_of UTC f).
Proof.
  intros Hm. unfold getDataAge.
  assert (Hs : truthy (VStr s) = true).
  { destruct s; [discriminate Hm | reflexivity]. }
  assert (Hn : value_is (VStr s) non_renseigne = false).
  { simpl. apply str_eqb_neq. intros ->.
    rewrite match_date_non_renseigne in Hm. discriminate Hm. }
  rewrite Hs, Hn. unfold classe, value_match_date, bind.
  cbn [negb orb]. rewrite Hm.
  destruct (_ <=? 7 * msPerDay); [reflexivity|].
  destruct (_ <=? 30 * msPerDay); reflexivity.
Qed.




(** C10.  A timestamp in which the pattern matches and whose instant is
    later than the current time is classified [fresh]. *)
Theorem getDataAge_future_is_fresh (UTC : Z -> Z) (now : Z)
  (s : jsstring) (f : date_fields) :
  match_date s = Some f -> now < instant_of UTC f ->
  getDataAge UTC now (VStr s) = fresh.
Proof.
  intros Hm Hlt. rewrite (getDataAge_matched UTC now s f Hm).
  unfold classe. rewrite (proj2 (Z.leb_le _ _)); [reflexivity|].
  unfold msPerDay. lia.
Qed.

Lemma getDataAge_future_is_fresh_witness :
  getDataAge utc_host 1700000000000 (VStr maj_2025_01_15) = fresh.
Proof.
  apply (getDataAge_future_is_fresh utc_host 1700000000000 maj_2025_01_15
           {| day := 15; month := 1; year := 2025; hour := 8; minute := 0 |}).
  - reflexivity.
  - vm_compute. reflexivity.
Defined.

(** ** Map link *)

Lemma falsy_degrees v :
  truthy v = false ->
  isNaN (degrees v) || is_zero (degrees v) = true.
Proof.
  destruct v as [| |[|]|x|[|c s]]; simpl; intros H;
    try discriminate H; try reflexivity.
  destruct x as [sx|sx| |sx m e]; simpl in H; try discriminate H;
    reflexivity.
Qed.

Lemma usable_then_truthy station :
  coordonnees_utilisables station = true ->
  truthy (latitude station) = true /\ truthy (longitude station) = true.
Proof.
  unfold coordonnees_utilisables. rewrite !andb_true_iff, !negb_true_iff.
  intros [[[Hn1 Hz1] Hn2] Hz2]. split.
  - destruct (truthy (latitude station)) eqn:E; [reflexivity|].
    apply falsy_degrees in E. rewrite Hn1, Hz1 in E. discriminate E.
  - destruct (truthy (longitude station)) eqn:E; [reflexivity|].
    apply falsy_degrees in E. rewrite Hn2, Hz2 in E. discriminate E.
Qed.

Lemma generateGoogleMapsUrl_usable station :
  generateGoogleMapsUrl station
  = if coordonnees_utilisables station
    then Ok (MapsCoords (degrees (latitude station))
               (degrees (longitude station)))
    else encodedQuery <- encodeURIComponent (searchQuery station) ;;
         Ok (MapsSearch encodedQuery).
Proof.
  unfold generateGoogleMapsUrl.
  destruct (coordonnees_utilisables station) eqn:E.
  - destruct (usable_then_truthy station E) as [-> ->].
    unfold coordonnees_utilisables in E.
    rewrite !andb_true_iff in E. destruct E as [[[-> ->] ->] ->].
    reflexivity.
  - unfold coordonnees_utilisables in E.
    destruct (negb (isNaN (degrees (latitude station)))),
             (negb (is_zero (degrees (latitude station)))),
             (negb (isNaN (degrees (longitude station)))),
             (negb (is_zero (degrees (longitude station))));
      try discriminate E; rewrite ?andb_false_r; reflexivity.
Qed.

Lemma unreserved_not_surrogate c :
  uri_unreserved c = true ->
  is_lead_surrogate c = false /\ is_trail_surrogate c = false.
Proof.
  intros H. assert (Hc : (c < 128)%N).
  { unfold uri_unreserved, is_digit in H.
    repeat (apply orb_true_iff in H; destruct H as [H|H]);
      repeat (apply andb_true_iff in H; destruct H as [H ?]);
      repeat match goal with
        | K : (_ =? _)%N = true |- _ => apply N.eqb_eq in K
        | K : (_ <=? _)%N = true |- _ => apply N.leb_le in K
        end; lia. }
  unfold is_lead_surrogate, is_trail_surrogate. split;
    apply andb_false_iff; left; apply N.leb_gt; lia.
Qed.

Lemma trail_not_lead c :
  is_trail_surrogate c = true -> is_lead_surrogate c = false.
Proof.
  unfold is_lead_surrogate, is_trail_surrogate.
  rewrite andb_true_iff, !N.leb_le. intros [H1 H2].
  apply andb_false_iff. right. apply N.leb_gt. lia.
Qed.

(** [encodeURIComponent] throws exactly on a string that is not well
    formed, and then it throws a URIError. *)
Lemma encodeURIComponent_bien_forme s :
  if bien_forme s then exists q, encodeURIComponent s = Ok q
  else encodeURIComponent s = Throw URIError.
Proof.
  remember (List.length s) as n eqn:Hn.
  revert s Hn. induction n as [n IH] using (well_founded_induction lt_wf).
  intros [|c t] Hn; [simpl; eauto|].
  assert (Ht : if bien_forme t then exists q, encodeURIComponent t = Ok q
               else encodeURIComponent t = Throw URIError).
  { apply (IH (List.length t)); [subst n; simpl; lia | reflexivity]. }
  cbn [encodeURIComponent bien_forme].
  destruct (uri_unreserved c) eqn:Hu.
  - destruct (unreserved_not_surrogate c Hu) as [-> ->]. simpl negb.
    cbn [andb]. destruct (bien_forme t).
    + destruct Ht as [q ->]. simpl. eauto.
    + rewrite Ht. reflexivity.
  - destruct (is_trail_surrogate c) eqn:Htr.
    + rewrite (trail_not_lead c Htr). reflexivity.
    + destruct (is_lead_surrogate c) eqn:Hld.
      * destruct t as [|c2 t']; [reflexivity|].
        destruct (is_trail_surrogate c2); [|reflexivity]. cbn [andb].
        assert (Ht' : if bien_forme t'
                      then exists q, encodeURIComponent t' = Ok q
                      else encodeURIComponent t' = Throw URIError).
        { apply (IH (List.length t')); [subst n; simpl; lia | reflexivity]. }
        destruct (bien_forme t').
        -- destruct Ht' as [q ->]. simpl. eauto.
        -- rewrite Ht'. reflexivity.
      * cbn [negb andb]. destruct (bien_forme t).
        -- destruct Ht as [q ->]. simpl. eauto.
        -- rewrite Ht. reflexivity.
Qed.

(** C7 (amended).  [generateGoogleMapsUrl] returns the coordinate URL, with
    the coordinates divided by 10^5, exactly when latitude and longitude
    both read as numbers that are not zero after the division (they are
    then present).  Otherwise it percent-encodes the text query made of the
    brand and the full address: it returns the text URL when that query
    has no unpaired surrogate code unit, and throws a URIError when it has
    one. *)
Theorem generateGoogleMapsUrl_cases (station : Station) :
  (coordonnees_utilisables station = true ->
   truthy (latitude station) = true /\ truthy (longitude station) = true
   /\ generateGoogleMapsUrl station
      = Ok (MapsCoords (degrees (latitude station))
              (degrees (longitude station))))
  /\ (coordonnees_utilisables station = false ->
      bien_forme (searchQuery station) = true ->
      exists q,
        encodeURIComponent (searchQuery station) = Ok q
        /\ generateGoogleMapsUrl station = Ok (MapsSearch q))
  /\ (coordonnees_utilisables station = false ->
      bien_forme (searchQuery station) = false ->
      generateGoogleMapsUrl station = Throw URIError).
Proof.
  rewrite generateGoogleMapsUrl_usable.
  pose proof (encodeURIComponent_bien_forme (searchQuery station)) as Henc.
  split; [|split].
  - intros H. destruct (usable_then_truthy station H) as [Hlat Hlon].
    rewrite H. auto.
  - intros H Hwf. rewrite H, Hwf in *. destruct Henc as [q Hq].
    exists q. rewrite Hq. split; reflexivity.
  - intros H Hwf. rewrite H, Hwf in *. rewrite Henc. reflexivity.
Qed.

Lemma generateGoogleMapsUrl_cases_witness :
  generateGoogleMapsUrl station_autoroute
  = Ok (MapsCoords (degrees (latitude station_autoroute))
          (degrees (longitude station_autoroute)))
  /\ exists q, generateGoogleMapsUrl station_route = Ok (MapsSearch q).
Proof.
  split.
  - apply (proj1 (generateGoogleMapsUrl_cases station_autoroute)).
    vm_compute. reflexivity.
  - destruct (proj1 (proj2 (generateGoogleMapsUrl_cases station_route)))
      as (q & _ & Hq); [vm_compute; reflexivity .. |].
    exists q. exact Hq.
Defined.

(** C7, as stated, fails on its last part: for a station without usable
    coordinates whose brand holds an unpaired surrogate code unit the
    function throws. *)
Lemma generateGoogleMapsUrl_throws_on_lone_surrogate :
  generateGoogleMapsUrl station_surrogate = Throw URIError.
Proof. vm_compute. reflexivity. Qed.

(** ** The controller *)

Lemma appliquerFiltres_keeps UTC localeCompare c a :
  stationsData (fst (appliquerFiltres UTC localeCompare c a)) = stationsData a
  /\ isLoading (fst (appliquerFiltres UTC localeCompare c a)) = isLoading a.
Proof.
  unfold appliquerFiltres.
  destruct (stationsData a) as [|s t] eqn:E; [simpl; auto|].
  destruct (filtrer c (s :: t)) as [l|e]; [|simpl; auto].
  destruct (afficherResultats c _); simpl; auto.
Qed.

Lemma rechercherStations_keeps c a :
  stationsData (fst (rechercherStations c a)) = stationsData a
  /\ filteredStations (fst (rechercherStations c a)) = filteredStations a.
Proof.
  unfold rechercherStations.
  destruct (trim (villeInput c)); [auto|].
  destruct (isLoading a); [auto|].
  destruct (encodeURIComponent _); auto.
Qed.

(** When the filters leave no station of a non-empty collection, the
    message for an empty result is shown. *)
Lemma appliquerFiltres_shows_NoResults UTC localeCompare c a :
  stationsData a <> [] -> filtrer c (stationsData a) = Ok [] ->
  resultats (fst (appliquerFiltres UTC localeCompare c a)) = NoResults.
Proof.
  intros Hne Hf. unfold appliquerFiltres.
  destruct (stationsData a) as [|s t]; [contradiction|].
  rewrite Hf. unfold trierStations.
  repeat match goal with
         | |- context [if ?b then _ else _] => destruct b
         end; reflexivity.
Qed.

Lemma appliquerFiltres_shows_NoResults_example :
  resultats
    (fst (appliquerFiltres utc_host ordinal_compare ouvert_24h
            {| stationsData := [station_route; station_ancienne];
               filteredStations := [station_route; station_ancienne];
               isLoading := false; resultats := Loading |}))
  = NoResults.
Proof. vm_compute. reflexivity. Qed.

(** C4, at the input where the code departs from it.  After a success
    response without stations the empty collection is stored, and
    [appliquerFiltres] returns before it writes the result: the page keeps
    showing what it showed, which after [rechercherStations] is the loading
    indicator. *)
Theorem empty_success_is_not_rendered
  (UTC : Z -> Z) (localeCompare : jsstring -> jsstring -> Z)
  (c : Controls) (err : option jsstring) (a : App) :
  (forall data,
     In data [Some []; None] ->
     let a' :=
       rechercherStations_suite UTC localeCompare c (Json true err data) a in
     stationsData a' = [] /\ filteredStations a' = []
     /\ resultats a' = resultats a)
  /\ run UTC localeCompare start
       [Rechercher no_filter; Reponse c reponse_vide]
     = Some {| app := {| stationsData := []; filteredStations := [];
                         isLoading := false; resultats := Loading |};
               pending := 0 |}.
Proof.
  split; [|reflexivity].
  intros data [<-|[<-|[]]]; repeat split.
Qed.

Lemma empty_success_is_not_rendered_witness :
  resultats
    (rechercherStations_suite utc_host ordinal_compare autoroute_sp95
       (Json true None (Some []))
       (fst (rechercherStations autoroute_sp95 initial)))
  = Loading.
Proof.
  exact (proj2 (proj2
    (proj1 (empty_success_is_not_rendered utc_host ordinal_compare
              autoroute_sp95 None
              (fst (rechercherStations autoroute_sp95 initial)))
       (Some []) (or_introl eq_refl)))).
Defined.

(** C9.  A search that fails replaces neither collection: starting the
    search leaves them as they are, and so does the end of the request
    when it is rejected, is not JSON or carries an error status. *)
Theorem failed_search_keeps_collections
  (UTC : Z -> Z) (localeCompare : jsstring -> jsstring -> Z)
  (c : Controls) (r : response) (a : App) :
  echec r = true ->
  (stationsData (fst (rechercherStations c a)) = stationsData a
   /\ filteredStations (fst (rechercherStations c a)) = filteredStations a)
  /\ stationsData (rechercherStations_suite UTC localeCompare c r a)
     = stationsData a
  /\ filteredStations (rechercherStations_suite UTC localeCompare c r a)
     = filteredStations a.
Proof.
  intros Hr. split; [apply rechercherStations_keeps|].
  destruct r as [e|e|[|] err l]; try discriminate Hr; split; reflexivity.
Qed.

Lemma failed_search_keeps_collections_witness :
  let a := {| stationsData := sample_stations;
              filteredStations := [station_autoroute];
              isLoading := true; resultats := Loading |} in
  stationsData
    (rechercherStations_suite utc_host ordinal_compare autoroute_sp95
       (Json false (Some (lit "Ville inconnue")) None) a)
  = sample_stations
  /\ filteredStations
       (rechercherStations_suite utc_host ordinal_compare autoroute_sp95
          (Json false (Some (lit "Ville inconnue")) None) a)
     = [station_autoroute].
Proof.
  intros a.
  exact (proj2 (failed_search_keeps_collections utc_host ordinal_compare
                  autoroute_sp95
                  (Json false (Some (lit "Ville inconnue")) None) a
                  eq_refl)).
Defined.

Lemma step_une_requete_au_plus UTC localeCompare s e s' :
  une_requete_au_plus s -> step UTC localeCompare s e = Some s' ->
  une_requete_au_plus s'.
Proof.
  unfold une_requete_au_plus. intros Hinv Hstep.
  destruct e as [c|c r|c|c]; simpl in Hstep.
  - unfold rechercherStations in Hstep.
    destruct (trim (villeInput c)).
    + injection Hstep as <-. simpl. rewrite Hinv.
      destruct (isLoading (app s)); reflexivity.
    + destruct (isLoading (app s)) eqn:El.
      * injection Hstep as <-. simpl. rewrite Hinv, El. reflexivity.
      * destruct (encodeURIComponent _); injection Hstep as <-; simpl;
          rewrite Hinv; reflexivity.
  - destruct (pending s) as [|n] eqn:Ep; [discriminate Hstep|].
    injection Hstep as <-. simpl.
    destruct (isLoading (app s)); [|discriminate Hinv].
    injection Hinv as ->.
    unfold rechercherStations_suite.
    destruct (match r with Rejected _ => _ | _ => _ end) as [a thrown].
    reflexivity.
  - injection Hstep as <-. simpl.
    rewrite (proj2 (appliquerFiltres_keeps UTC localeCompare c (app s))).
    exact Hinv.
  - injection Hstep as <-. simpl. unfold reinitialiserFiltres.
    rewrite (proj2 (appliquerFiltres_keeps UTC localeCompare _ (app s))).
    exact Hinv.
Qed.

Lemma run_une_requete_au_plus UTC localeCompare events : forall s s',
  une_requete_au_plus s -> run UTC localeCompare s events = Some s' ->
  une_requete_au_plus s'.
Proof.
  induction events as [|e t IH]; intros s s' Hinv Hrun; simpl in Hrun.
  - injection Hrun as <-. exact Hinv.
  - destruct (step UTC localeCompare s e) as [s1|] eqn:Es;
      [|discriminate Hrun].
    apply (IH s1 s'); [|exact Hrun].
    apply (step_une_requete_au_plus UTC localeCompare s e s1 Hinv Es).
Qed.

(** C6.  While [isLoading] is set a search trigger changes nothing of the
    application or the page and issues no request.  In every state the
    page reaches, at most one request is pending, and one is pending
    exactly while [isLoading] is set.  The end of a request, whatever its
    outcome, clears [isLoading]. *)
Theorem search_guard
  (UTC : Z -> Z) (localeCompare : jsstring -> jsstring -> Z) :
  (forall c a,
     isLoading a = true ->
     fst (rechercherStations c a) = a
     /\ fetches (snd (rechercherStations c a)) = 0%nat)
  /\ (forall events s,
        run UTC localeCompare start events = Some s ->
        (pending s <= 1)%nat
        /\ (pending s = 1%nat <-> isLoading (app s) = true))
  /\ (forall c r a,
        isLoading (rechercherStations_suite UTC localeCompare c r a) = false).
Proof.
  split; [|split].
  - intros c a Hl. unfold rechercherStations.
    destruct (trim (villeInput c)); [auto|]. rewrite Hl. auto.
  - intros events s Hrun.
    assert (Hinv : une_requete_au_plus s).
    { apply (run_une_requete_au_plus UTC localeCompare events start s);
        [reflexivity | exact Hrun]. }
    unfold une_requete_au_plus in Hinv. rewrite Hinv.
    destruct (isLoading (app s)); split; try lia;
      split; intros H; try reflexivity; discriminate H.
  - intros c r a. unfold rechercherStations_suite.
    destruct (match r with Rejected _ => _ | _ => _ end) as [a' thrown].
    reflexivity.
Qed.

Lemma search_guard_witness :
  let a := {| stationsData := []; filteredStations := [];
              isLoading := true; resultats := Loading |} in
  fst (rechercherStations no_filter a) = a
  /\ fetches (snd (rechercherStations no_filter a)) = 0%nat.
Proof.
  intros a.
  exact (proj1 (search_guard utc_host ordinal_compare) no_filter a eq_refl).
Defined.

(** ** Scenarios of the specification *)

(** Of the two stations found in Paris, the motorway filter keeps the
    first one only. *)
Example scenario_filter_autoroute :
  filtrer autoroute_sp95 [station_autoroute; station_route]
  = Ok [station_autoroute].
Proof. vm_compute. reflexivity. Qed.

(** Sorted by ascending price, the station without prices is last. *)
Example scenario_prix_croissant :
  trierStations utc_host ordinal_compare [station_route; station_autoroute]
    (lit "prix-croissant")
  = [station_autoroute; station_route].
Proof. vm_compute. reflexivity. Qed.

(** Latitude 4885000 and longitude 235000 give the coordinate link for
    48.85 and 2.35; latitude 0 and longitude 0 give the text link. *)
Example scenario_map_links :
  generateGoogleMapsUrl station_autoroute
  = Ok (MapsCoords (parseFloat_string (lit "48.85"))
          (parseFloat_string (lit "2.35")))
  /\ generateGoogleMapsUrl station_route
     = Ok (MapsSearch
             (lit "Station-service%203%20avenue%20de%20Clichy%2C%2075017%20Paris%2C%20France")).
Proof. split; vm_compute; reflexivity. Qed.

(** Two search triggers before the response: one request is issued, the
    second trigger changes nothing. *)
Example scenario_two_triggers :
  run utc_host ordinal_compare start [Rechercher no_filter; Rechercher no_filter]
  = run utc_host ordinal_compare start [Rechercher no_filter]
  /\ option_map pending
       (run utc_host ordinal_compare start
          [Rechercher no_filter; Rechercher no_filter])
     = Some 1%nat.
Proof. split; vm_compute; reflexivity. Qed.

(** A search that succeeds with the two stations stores them and shows
    them, the most recently updated first. *)
Example scenario_success :
  option_map app
    (run utc_host ordinal_compare start
       [Rechercher no_filter;
        Reponse no_filter
          (Json true None (Some [station_route; station_autoroute]))])
  = Some {| stationsData := [station_route; station_autoroute];
            filteredStations := [station_autoroute; station_route];
            isLoading := false;
            resultats :=
              Results (lit "Paris") [station_autoroute; station_route] |}.
Proof. vm_compute. reflexivity. Qed.

(** * Further properties *)

(** ** Sorting *)

Section SortMore.
Context {A : Type}.
Variable cmp : A -> A -> Z.

Lemma insert_sorted_perm x l : Permutation (insert_sorted cmp x l) (x :: l).
Proof.
  induction l as [|y t IH]; simpl; [reflexivity|].
  destruct (0 <? cmp x y); [|reflexivity].
  rewrite IH. apply perm_swap.
Qed.

Lemma sort_perm l : Permutation (sort cmp l) l.
Proof.
  induction l as [|x t IH]; simpl; [reflexivity|].
  rewrite insert_sorted_perm. constructor. exact IH.
Qed.

(** A class of elements the comparator never puts in the wrong order keeps
    its order through an insertion. *)
Lemma filter_insert_sorted (p : A -> bool) x l :
  (forall a b, p a = true -> p b = true -> cmp a b <= 0) ->
  filter p (insert_sorted cmp x l) = filter p (x :: l).
Proof.
  intros Hp. induction l as [|y t IH]; simpl; [reflexivity|].
  destruct (0 <? cmp x y) eqn:Hc; [|reflexivity].
  apply Z.ltb_lt in Hc. simpl. rewrite IH. simpl.
  destruct (p x) eqn:Hx, (p y) eqn:Hy; try reflexivity.
  specialize (Hp x y Hx Hy). lia.
Qed.

Lemma filter_sort (p : A -> bool) l :
  (forall a b, p a = true -> p b = true -> cmp a b <= 0) ->
  filter p (sort cmp l) = filter p l.
Proof.
  intros Hp. induction l as [|x t IH]; simpl; [reflexivity|].
  rewrite filter_insert_sorted by exact Hp. simpl. rewrite IH. reflexivity.
Qed.
End SortMore.

Section SortByKey.
Context {A : Type}.
Variable key : A -> Z.

Let descending (a b : A) : Z := Z.sgn (key b - key a).

Lemma insert_descending x l :
  StronglySorted (fun a b => key b <= key a) l ->
  StronglySorted (fun a b => key b <= key a) (insert_sorted descending x l).
Proof.
  induction 1 as [|y t Ht IH Hy]; simpl.
  - constructor; constructor.
  - destruct (0 <? descending x y) eqn:Hc.
    + apply Z.ltb_lt in Hc. unfold descending in Hc.
      constructor; [exact IH|].
      apply Forall_insert_sorted; [|exact Hy].
      destruct (Z.sgn_spec (key y - key x)) as [[? ?]|[[? ?]|[? ?]]]; lia.
    + apply Z.ltb_ge in Hc. unfold descending in Hc.
      assert (Hxy : key y <= key x)
        by (destruct (Z.sgn_spec (key y - key x)) as [[? ?]|[[? ?]|[? ?]]];
            lia).
      constructor; [constructor; assumption|].
      constructor; [exact Hxy|].
      eapply Forall_impl; [|exact Hy]. simpl. intros b Hb. lia.
Qed.

Lemma sort_descending l :
  StronglySorted (fun a b => key b <= key a) (sort descending l).
Proof.
  induction l as [|x t IH]; simpl; [constructor|].
  apply insert_descending, IH.
Qed.
End SortByKey.

Lemma trierStations_cases UTC localeCompare stations tri :
  trierStations UTC localeCompare stations tri = stations
  \/ exists cmp, trierStations UTC localeCompare stations tri
                 = sort cmp stations.
Proof.
  unfold trierStations.
  repeat match goal with
         | |- context [if ?b then _ else _] => destruct b
         end; eauto.
Qed.

(** X1.  Whatever the sort key and the host, [trierStations] returns the
    stations it was given, each as many times as it was given: it only
    reorders. *)
Theorem trierStations_permutation
  (UTC : Z -> Z) (localeCompare : jsstring -> jsstring -> Z)
  (stations : list Station) (tri : jsstring) :
  Permutation (trierStations UTC localeCompare stations tri) stations.
Proof.
  destruct (trierStations_cases UTC localeCompare stations tri)
    as [->|[cmp ->]]; [reflexivity | apply sort_perm].
Qed.

(** X2.  Sorted by [date-maj] (or with the empty key), every station comes
    before all the stations whose latest update is older or equal: the
    latest update timestamps never increase along the list. *)
Theorem date_maj_sorted
  (UTC : Z -> Z) (localeCompare : jsstring -> jsstring -> Z)
  (stations : list Station) :
  StronglySorted
    (fun a b => getLatestUpdateTimestamp UTC b
                <= getLatestUpdateTimestamp UTC a)
    (trierStations UTC localeCompare stations (lit "date-maj"))
  /\ trierStations UTC localeCompare stations []
     = trierStations UTC localeCompare stations (lit "date-maj").
Proof.
  split; [|reflexivity].
  exact (sort_descending (getLatestUpdateTimestamp UTC) stations).
Qed.

(** X3.  The [date-maj] sort is stable: the stations that share a latest
    update timestamp stay in the order they had. *)
Theorem date_maj_stable
  (UTC : Z -> Z) (localeCompare : jsstring -> jsstring -> Z)
  (stations : list Station) (t : Z) :
  filter (fun s => getLatestUpdateTimestamp UTC s =? t)
    (trierStations UTC localeCompare stations (lit "date-maj"))
  = filter (fun s => getLatestUpdateTimestamp UTC s =? t) stations.
Proof.
  change (trierStations UTC localeCompare stations (lit "date-maj"))
    with (sort (fun a b => Z.sgn (getLatestUpdateTimestamp UTC b
                                  - getLatestUpdateTimestamp UTC a))
            stations).
  apply filter_sort. intros a b Ha Hb.
  apply Z.eqb_eq in Ha, Hb. rewrite Ha, Hb, Z.sub_diag. simpl. lia.
Qed.

Lemma num_same_eq x y : num_same x y = true -> x = y.
Proof.
  destruct x as [a|a| |a m e], y as [b|b| |b n f]; simpl;
    try discriminate; try reflexivity.
  - intros H. apply Bool.eqb_prop in H. congruence.
  - intros H. apply Bool.eqb_prop in H. congruence.
  - rewrite !andb_true_iff. intros [[H1 H2] H3].
    apply Bool.eqb_prop in H1. apply Pos.eqb_eq in H2. apply Z.eqb_eq in H3.
    congruence.
Qed.

(** A Number minus itself is a zero or NaN. *)
Lemma num_sub_diag x : sign_of (num_sub x x) = 0.
Proof.
  destruct x as [[|]|[|]| |s m e]; try reflexivity.
  unfold num_sub, SFsub. rewrite Z.sub_diag. reflexivity.
Qed.

(** X4.  Both price sorts are stable: in a collection none of whose
    averages is NaN (with a NaN the comparator is not a consistent one and
    the order is the engine's), the stations that have the same average
    price stay in the order they had. *)
Theorem prix_sorts_stable
  (UTC : Z -> Z) (localeCompare : jsstring -> jsstring -> Z)
  (stations : list Station) (v : number) :
  Forall (fun s => isNaN (getPrixMoyen s) = false) stations ->
  filter (fun s => num_same (getPrixMoyen s) v)
    (trierStations UTC localeCompare stations (lit "prix-croissant"))
  = filter (fun s => num_same (getPrixMoyen s) v) stations
  /\ filter (fun s => num_same (getPrixMoyen s) v)
       (trierStations UTC localeCompare stations (lit "prix-decroissant"))
     = filter (fun s => num_same (getPrixMoyen s) v) stations.
Proof.
  intros _. split.
  - change (trierStations UTC localeCompare stations (lit "prix-croissant"))
      with (sort (fun a b => sign_of (num_sub (getPrixMoyen a)
                                        (getPrixMoyen b))) stations).
    apply filter_sort. intros a b Ha Hb.
    apply num_same_eq in Ha, Hb. rewrite Ha, Hb, num_sub_diag. lia.
  - change (trierStations UTC localeCompare stations (lit "prix-decroissant"))
      with (sort (fun a b => sign_of (num_sub (getPrixMoyen b)
                                        (getPrixMoyen a))) stations).
    apply filter_sort. intros a b Ha Hb.
    apply num_same_eq in Ha, Hb. rewrite Ha, Hb, num_sub_diag. lia.
Qed.

Lemma prix_sorts_stable_witness :
  filter (fun s => num_same (getPrixMoyen s) Infinity)
    (trierStations utc_host ordinal_compare
       [station_route; station_autoroute; station_surrogate]
       (lit "prix-croissant"))
  = [station_route; station_surrogate].
Proof.
  refine (eq_trans
            (proj1 (prix_sorts_stable utc_host ordinal_compare
                      [station_route; station_autoroute; station_surrogate]
                      Infinity _)) _).
  - repeat constructor.
  - reflexivity.
Defined.

(** ** Timestamps *)

Lemma fold_latest_ge (f : PriceEntry -> Z) l : forall acc,
  acc <= fold_left (fun latest p => if latest <? f p then f p else latest)
           l acc.
Proof.
  induction l as [|p t IH]; intros acc; simpl; [lia|].
  specialize (IH (if acc <? f p then f p else acc)).
  destruct (acc <? f p) eqn:E; [apply Z.ltb_lt in E|]; lia.
Qed.

Lemma fold_latest_bound (f : PriceEntry -> Z) l : forall acc p,
  In p l ->
  f p <= fold_left (fun latest p => if latest <? f p then f p else latest)
           l acc.
Proof.
  induction l as [|q t IH]; intros acc p Hin; simpl; [contradiction|].
  destruct Hin as [->|Hin]; [|apply IH, Hin].
  pose proof (fold_latest_ge f t (if acc <? f p then f p else acc)) as H.
  destruct (acc <? f p) eqn:E; [|apply Z.ltb_ge in E]; lia.
Qed.

Lemma fold_latest_attained (f : PriceEntry -> Z) l : forall acc,
  fold_left (fun latest p => if latest <? f p then f p else latest) l acc
  = acc
  \/ exists p, In p l
       /\ fold_left (fun latest p => if latest <? f p then f p else latest)
            l acc = f p.
Proof.
  induction l as [|q t IH]; intros acc; simpl; [left; reflexivity|].
  destruct (IH (if acc <? f q then f q else acc)) as [H|(p & Hp & H)].
  - rewrite H. destruct (acc <? f q); [|left; reflexivity].
    right. exists q. split; [left|]; reflexivity.
  - right. exists p. split; [right; exact Hp | exact H].
Qed.

(** X5.  [getLatestUpdateTimestamp] is the greatest of 0 and the parsed
    timestamps of the station's prices: it is never negative, no price has
    a later timestamp, and it is 0 or the timestamp of one of the
    prices. *)
Theorem getLatestUpdateTimestamp_is_max (UTC : Z -> Z) (station : Station) :
  0 <= getLatestUpdateTimestamp UTC station
  /\ (forall l p,
        prix station = Some l -> In p l ->
        parseDisplayDate UTC (maj p) <= getLatestUpdateTimestamp UTC station)
  /\ (getLatestUpdateTimestamp UTC station = 0
      \/ exists l p,
           prix station = Some l /\ In p l
           /\ getLatestUpdateTimestamp UTC station
              = parseDisplayDate UTC (maj p)).
Proof.
  unfold getLatestUpdateTimestamp.
  destruct (prix station) as [[|q t]|] eqn:E.
  - repeat split; [lia | intros l p H; injection H as <-; contradiction
                   | left; reflexivity].
  - split;
      [exact (fold_latest_ge (fun p => parseDisplayDate UTC (maj p))
                (q :: t) 0)|].
    split.
    + intros l p H Hin. injection H as <-.
      exact (fold_latest_bound (fun p => parseDisplayDate UTC (maj p))
               (q :: t) 0 p Hin).
    + destruct (fold_latest_attained
                  (fun p => parseDisplayDate UTC (maj p)) (q :: t) 0)
        as [H|(p & Hp & H)]; [left; exact H|].
      right. exists (q :: t), p. auto.
  - repeat split; [lia | intros l p H; discriminate H | left; reflexivity].
Qed.

Lemma getLatestUpdateTimestamp_is_max_witness :
  parseDisplayDate utc_host (VStr maj_2025_01_15)
  <= getLatestUpdateTimestamp utc_host station_autoroute.
Proof.
  refine (proj1 (proj2 (getLatestUpdateTimestamp_is_max utc_host
                          station_autoroute)) _
            (price "SP95" "1.850" maj_2025_01_15) eq_refl _).
  left. reflexivity.
Defined.




Lemma classe_monotone d d' : d <= d' -> rang (classe d) <= rang (classe d').
Proof.
  intros H. unfold classe, msPerDay.
  destruct (d <=? 7 * 86400000) eqn:E1, (d <=? 30 * 86400000) eqn:E2,
           (d' <=? 7 * 86400000) eqn:E3, (d' <=? 30 * 86400000) eqn:E4;
    simpl; try lia;
    repeat match goal with
           | K : (_ <=? _) = true |- _ => apply Z.leb_le in K
           | K : (_ <=? _) = false |- _ => apply Z.leb_gt in K
           end; lia.
Qed.

(** X7.  The classification never gets fresher with age: of two
    timestamps read at two times, the one further in the past is classified
    at least as old as the other.  In particular a timestamp only moves
    from [fresh] to [old] to [stale] as time passes, and at a given time an
    earlier timestamp is never fresher than a later one. *)
Theorem getDataAge_monotone (UTC : Z -> Z) (now now' : Z)
  (s s' : jsstring) (f f' : date_fields) :
  match_date s = Some f -> match_date s' = Some f' ->
  now - instant_of UTC f <= now' - instant_of UTC f' ->
  rang (getDataAge UTC now (VStr s)) <= rang (getDataAge UTC now' (VStr s')).
Proof.
  intros Hm Hm' Hle.
  rewrite (getDataAge_matched UTC now s f Hm).
  rewrite (getDataAge_matched UTC now' s' f' Hm').
  apply classe_monotone, Hle.
Qed.

Lemma getDataAge_monotone_witness :
  rang (getDataAge utc_host 1737000000000 (VStr maj_2025_01_15))
  <= rang (getDataAge utc_host 1737000000000 (VStr maj_2024_06_01)).
Proof.
  apply (getDataAge_monotone utc_host 1737000000000 1737000000000
           maj_2025_01_15 maj_2024_06_01
           {| day := 15; month := 1; year := 2025; hour := 8; minute := 0 |}
           {| day := 1; month := 6; year := 2024; hour := 12; minute := 30 |}).
  - reflexivity.
  - reflexivity.
  - vm_compute. discriminate.
Defined.

(** ** More on the filters *)

Lemma filter_filter {A} (p q : A -> bool) l :
  filter p (filter q l) = filter (fun x => q x && p x) l.
Proof.
  induction l as [|x t IH]; simpl; [reflexivity|].
  destruct (q x); simpl; [destruct (p x)|]; rewrite IH; reflexivity.
Qed.

Lemma filtrer_Ok_filter c stations l :
  filtrer c stations = Ok l -> l = filter (garde_tous c) stations.
Proof.
  rewrite filtrer_ordre_du_source. intros H.
  apply filtrer_dans_l_ordre_Ok in H. subst l. simpl.
  rewrite !filter_filter. apply filter_ext.
  intros s. unfold garde_tous. rewrite andb_assoc. reflexivity.
Qed.

Lemma filtrer_total c stations :
  selectedFuels c = [] \/ Forall a_des_prix stations ->
  filtrer c stations = Ok (filter (garde_tous c) stations).
Proof.
  intros H.
  assert (Hex : exists l, filtrer c stations = Ok l).
  { destruct H as [H|H].
    - unfold filtrer. rewrite H. simpl. eauto.
    - rewrite filtrer_ordre_du_source, filtrer_dans_l_ordre_garde by exact H.
      eauto. }
  destruct Hex as [l Hl]. rewrite Hl.
  apply filtrer_Ok_filter in Hl. rewrite Hl. reflexivity.
Qed.

Lemma garde_carburants_a_des_prix c s :
  selectedFuels c <> [] -> garde c ParCarburants s = true -> a_des_prix s.
Proof.
  unfold garde, a_des_prix. intros Hf Hg.
  destruct (selectedFuels c); [contradiction|].
  destruct (prix s); discriminate.
Qed.

(** X8.  The stations the [24h] filter keeps are, in the same order, those
    of the stations the [ouvert] filter keeps that have the automate flag:
    [24h] never shows a station that [ouvert] hides. *)
Theorem horaires_24h_within_ouvert
  (c : Controls) (stations l24 louvert : list Station) :
  filtrer (with_horaires (lit "24h") c) stations = Ok l24 ->
  filtrer (with_horaires (lit "ouvert") c) stations = Ok louvert ->
  l24 = filter (fun s => truthy (automate_24h s)) louvert
  /\ incl l24 louvert.
Proof.
  intros H24 Hou. apply filtrer_Ok_filter in H24, Hou.
  assert (Heq : l24 = filter (fun s => truthy (automate_24h s)) louvert).
  { subst l24 louvert. rewrite filter_filter. apply filter_ext.
    intros s. unfold garde_tous, garde. simpl.
    destruct (truthy (automate_24h s));
      rewrite ?orb_true_r, ?andb_true_r, ?andb_false_r; reflexivity. }
  split; [exact Heq|].
  intros s Hs. rewrite Heq in Hs. apply filter_In in Hs. tauto.
Qed.

Lemma horaires_24h_within_ouvert_witness :
  incl [station_autoroute] [station_autoroute].
Proof.
  exact (proj2 (horaires_24h_within_ouvert no_filter sample_stations
                  [station_autoroute] [station_autoroute]
                  eq_refl eq_refl)).
Defined.

(** X9.  The fuel filter is a union over the selected fuels: once a fuel is
    selected, selecting further fuels never removes a station from the
    result. *)
Theorem more_fuels_keep_more
  (c : Controls) (fuels fuels' : list jsstring)
  (stations l l' : list Station) :
  fuels <> [] -> incl fuels fuels' ->
  filtrer (with_fuels fuels c) stations = Ok l ->
  filtrer (with_fuels fuels' c) stations = Ok l' ->
  incl l l'.
Proof.
  intros Hne Hincl Hl Hl'. apply filtrer_Ok_filter in Hl, Hl'. subst l l'.
  intros s Hs. apply filter_In in Hs. destruct Hs as [Hin Hg].
  apply filter_In. split; [exact Hin|].
  unfold garde_tous in *. rewrite !andb_true_iff in *.
  destruct Hg as [[Ht Hh] Hc]. repeat split; [exact Ht | exact Hh |].
  unfold garde in *. cbn [selectedFuels with_fuels] in *.
  destruct fuels as [|f0 fs]; [contradiction|].
  destruct fuels' as [|g0 gs]; [destruct (Hincl f0); left; reflexivity|].
  destruct (prix s) as [pl|]; [|discriminate Hc].
  apply existsb_exists in Hc. destruct Hc as (fuel & Hfuel & Hhas).
  apply existsb_exists. exists fuel. split; [apply Hincl, Hfuel | exact Hhas].
Qed.

Lemma more_fuels_keep_more_witness :
  incl [station_autoroute] [station_autoroute; station_ancienne].
Proof.
  apply (more_fuels_keep_more no_filter [lit "SP95"]
           [lit "SP95"; lit "E10"] sample_stations).
  - discriminate.
  - intros x [<-|[]]. left. reflexivity.
  - reflexivity.
  - reflexivity.
Defined.

Lemma filter_idem {A} (p : A -> bool) l :
  filter p (filter p l) = filter p l.
Proof.
  rewrite filter_filter. apply filter_ext. intros x.
  destruct (p x); reflexivity.
Qed.

(** X10.  When the filters return, the result is the input with some
    stations left out: nothing is added, repeated or moved.  Filtering the
    result again with the same controls returns it unchanged. *)
Theorem filtrer_selects_and_is_idempotent
  (c : Controls) (stations l : list Station) :
  filtrer c stations = Ok l ->
  (exists keep, l = filter keep stations)
  /\ filtrer c l = Ok l.
Proof.
  intros H. apply filtrer_Ok_filter in H. split; [eauto|].
  rewrite filtrer_total.
  - subst l. rewrite filter_idem. reflexivity.
  - destruct (selectedFuels c) as [|f0 fs] eqn:E; [left; reflexivity|].
    right. subst l. apply Forall_forall. intros s Hs.
    apply filter_In in Hs. destruct Hs as [_ Hg].
    unfold garde_tous in Hg. rewrite !andb_true_iff in Hg.
    apply (garde_carburants_a_des_prix c s); [rewrite E; discriminate|].
    tauto.
Qed.

Lemma filtrer_selects_and_is_idempotent_witness :
  filtrer autoroute_sp95 [station_autoroute] = Ok [station_autoroute].
Proof.
  exact (proj2 (filtrer_selects_and_is_idempotent autoroute_sp95
                  sample_stations [station_autoroute] eq_refl)).
Defined.

(** ** More on the controller *)

Lemma map_result_creerCarteStation l :
  Forall (fun s => prix_numeriques s = true) l ->
  map_result creerCarteStation l = Ok l.
Proof.
  induction 1 as [|s t Hs Ht IH]; simpl; [reflexivity|].
  unfold creerCarteStation at 1. unfold prix_numeriques in Hs.
  destruct (prix s); [rewrite Hs|]; simpl; rewrite IH; reflexivity.
Qed.

Lemma map_result_creerCarteStation_throws l s :
  In s l -> prix_numeriques s = false ->
  map_result creerCarteStation l = Throw TypeError.
Proof.
  induction l as [|x t IH]; intros Hin Hs; [contradiction|]. simpl.
  destruct (prix_numeriques x) eqn:Hx.
  - destruct Hin as [->|Hin]; [congruence|].
    unfold creerCarteStation at 1. unfold prix_numeriques in Hx.
    destruct (prix x); [rewrite Hx|]; simpl; rewrite (IH Hin Hs); reflexivity.
  - unfold creerCarteStation at 1. unfold prix_numeriques in Hx.
    destruct (prix x); [rewrite Hx; reflexivity | discriminate Hx].
Qed.

(** X11.  Resetting the filters re-derives the view from the stored
    collection: whatever the controls held, the filtered collection becomes
    the whole stored collection in [date-maj] order, and neither the stored
    collection nor [isLoading] changes. *)
Theorem reinitialiserFiltres_shows_everything
  (UTC : Z -> Z) (localeCompare : jsstring -> jsstring -> Z)
  (c : Controls) (a : App) :
  stationsData a <> [] ->
  let a' := fst (reinitialiserFiltres UTC localeCompare c a) in
  filteredStations a'
    = trierStations UTC localeCompare (stationsData a) (lit "date-maj")
  /\ Permutation (filteredStations a') (stationsData a)
  /\ stationsData a' = stationsData a
  /\ isLoading a' = isLoading a.
Proof.
  intros Hne a'.
  assert (H : filteredStations a'
              = trierStations UTC localeCompare (stationsData a)
                  (lit "date-maj")).
  { subst a'. unfold reinitialiserFiltres, appliquerFiltres.
    destruct (stationsData a) as [|s t] eqn:E; [contradiction|].
    assert (Hf : forall tri (typ hor : option jsstring),
               filtrer
                 {| villeInput := villeInput c;
                    triSelect := tri;
                    typeStationSelect := option_map (fun _ => []) typ;
                    horairesSelect := option_map (fun _ => []) hor;
                    selectedFuels := [] |} (s :: t) = Ok (s :: t)).
    { intros tri [x|] [y|]; reflexivity. }
    rewrite Hf. cbn [triSelect].
    assert (Ht : or_else (option_map (fun _ => lit "date-maj") (triSelect c))
                   (lit "date-maj") = lit "date-maj")
      by (destruct (triSelect c); reflexivity).
    rewrite Ht. destruct (afficherResultats _ _); reflexivity. }
  split; [exact H|]. split.
  - rewrite H.
    destruct (trierStations_cases UTC localeCompare (stationsData a)
                (lit "date-maj")) as [->|[cmp ->]];
      [reflexivity | apply sort_perm].
  - apply (appliquerFiltres_keeps UTC localeCompare).
Qed.

Lemma reinitialiserFiltres_shows_everything_witness :
  filteredStations
    (fst (reinitialiserFiltres utc_host ordinal_compare autoroute_sp95
            {| stationsData := [station_ancienne; station_autoroute];
               filteredStations := [station_autoroute];
               isLoading := false;
               resultats := Results (lit "Paris") [station_autoroute] |}))
  = [station_autoroute; station_ancienne].
Proof.
  refine (eq_trans
            (proj1 (reinitialiserFiltres_shows_everything utc_host
                      ordinal_compare autoroute_sp95
                      {| stationsData := [station_ancienne; station_autoroute];
                         filteredStations := [station_autoroute];
                         isLoading := false;
                         resultats :=
                           Results (lit "Paris") [station_autoroute] |} _))
            _).
  - discriminate.
  - vm_compute. reflexivity.
Defined.


Lemma appliquerFiltres_view UTC localeCompare c a :
  (exists keep,
     Permutation (filteredStations a) (filter keep (stationsData a))) ->
  exists keep,
    Permutation (filteredStations (fst (appliquerFiltres UTC localeCompare c a)))
      (filter keep
         (stationsData (fst (appliquerFiltres UTC localeCompare c a)))).
Proof.
  intros Hinv. unfold appliquerFiltres.
  destruct (stationsData a) as [|s t] eqn:E; [simpl; rewrite E; exact Hinv|].
  destruct (filtrer c (s :: t)) as [l|e] eqn:Ef;
    [|simpl; rewrite E; exact Hinv].
  apply filtrer_Ok_filter in Ef.
  exists (garde_tous c).
  assert (Hp : Permutation
                 (trierStations UTC localeCompare l
                    (or_else (triSelect c) (lit "date-maj")))
                 (filter (garde_tous c) (s :: t))).
  { rewrite <- Ef.
    destruct (trierStations_cases UTC localeCompare l
                (or_else (triSelect c) (lit "date-maj"))) as [->|[cmp ->]];
      [reflexivity | apply sort_perm]. }
  destruct (afficherResultats c _); simpl; rewrite E; exact Hp.
Qed.

Lemma step_view UTC localeCompare s e s' :
  (exists keep,
     Permutation (filteredStations (app s))
       (filter keep (stationsData (app s)))) ->
  step UTC localeCompare s e = Some s' ->
  exists keep,
    Permutation (filteredStations (app s'))
      (filter keep (stationsData (app s'))).
Proof.
  intros Hinv Hstep. destruct e as [c|c r|c|c]; simpl in Hstep.
  - destruct (rechercherStations c (app s)) as [a effects] eqn:Er.
    injection Hstep as <-. simpl.
    pose proof (rechercherStations_keeps c (app s)) as [H1 H2].
    rewrite Er in H1, H2. simpl in H1, H2. rewrite H1, H2. exact Hinv.
  - destruct (pending s); [discriminate Hstep|].
    injection Hstep as <-. simpl.
    destruct r as [e|e|[|] err data]; try exact Hinv.
    unfold rechercherStations_suite.
    pose proof (appliquerFiltres_view UTC localeCompare c
                  {| stationsData :=
                       match data with Some l => l | None => [] end;
                     filteredStations :=
                       match data with Some l => l | None => [] end;
                     isLoading := isLoading (app s);
                     resultats := resultats (app s) |}) as Hv.
    destruct (appliquerFiltres UTC localeCompare c _) as [a' thrown].
    simpl in Hv.
    destruct thrown; simpl; apply Hv; exists (fun _ => true);
      rewrite filter_true; reflexivity.
  - injection Hstep as <-. simpl.
    apply appliquerFiltres_view, Hinv.
  - injection Hstep as <-. simpl. unfold reinitialiserFiltres.
    apply appliquerFiltres_view, Hinv.
Qed.

(** X13.  In every state the page reaches, the filtered collection is a
    reordering of a selection of the stored collection: each station in it
    is a station of the last successful response, and none appears more
    often than it was received. *)
Theorem filtered_is_a_view_of_stored
  (UTC : Z -> Z) (localeCompare : jsstring -> jsstring -> Z)
  (events : list event) (s : System) :
  run UTC localeCompare start events = Some s ->
  (exists keep,
     Permutation (filteredStations (app s))
       (filter keep (stationsData (app s))))
  /\ incl (filteredStations (app s)) (stationsData (app s)).
Proof.
  intros Hrun.
  assert (Hv : exists keep,
             Permutation (filteredStations (app s))
               (filter keep (stationsData (app s)))).
  { assert (H0 : exists keep,
               Permutation (filteredStations (app start))
                 (filter keep (stationsData (app start))))
      by (exists (fun _ => true); reflexivity).
    revert Hrun H0. generalize start. revert s.
    induction events as [|e t IH]; intros s s0 Hrun H0; simpl in Hrun.
    - injection Hrun as <-. exact H0.
    - destruct (step UTC localeCompare s0 e) as [s1|] eqn:Es;
        [|discriminate Hrun].
      apply (IH s s1 Hrun). apply (step_view UTC localeCompare s0 e s1 H0 Es). }
  split; [exact Hv|].
  destruct Hv as [keep Hp]. intros x Hx.
  apply (Permutation_in _ Hp) in Hx. apply filter_In in Hx. tauto.
Qed.

Lemma filtered_is_a_view_of_stored_witness :
  incl [station_autoroute]
    [station_route; station_autoroute; station_ancienne].
Proof.
  exact (proj2 (filtered_is_a_view_of_stored utc_host ordinal_compare
      [Rechercher autoroute_sp95;
       Reponse autoroute_sp95
         (Json true None
            (Some [station_route; station_autoroute; station_ancienne]))]
      {| app := {| stationsData :=
                     [station_route; station_autoroute; station_ancienne];
                   filteredStations := [station_autoroute];
                   isLoading := false;
                   resultats := Results (lit "Paris") [station_autoroute] |};
         pending := 0 |}
      eq_refl)).
Defined.

(** X14.  A success response with at least one station, all of whose prices
    have a Number for value, received while no fuel is selected or while
    every station has a price list, and with no NaN average when the sort
    is by price: the collection is stored, the filtered collection is the
    sorted result of the filters, the page shows it (the empty-result
    message if the filters keep nothing) and [isLoading] is cleared. *)
Theorem success_stores_and_shows
  (UTC : Z -> Z) (localeCompare : jsstring -> jsstring -> Z)
  (c : Controls) (err : option jsstring) (data : list Station) (a : App) :
  data <> [] ->
  selectedFuels c = [] \/ Forall a_des_prix data ->
  Forall (fun s => prix_numeriques s = true) data ->
  (tri_par_prix (or_else (triSelect c) (lit "date-maj")) = true ->
   Forall (fun s => isNaN (getPrixMoyen s) = false) data) ->
  let view :=
    trierStations UTC localeCompare (filter (garde_tous c) data)
      (or_else (triSelect c) (lit "date-maj")) in
  rechercherStations_suite UTC localeCompare c (Json true err (Some data)) a
  = {| stationsData := data;
       filteredStations := view;
       isLoading := false;
       resultats := match view with
                    | [] => NoResults
                    | _ => Results (trim (villeInput c)) view
                    end |}.
Proof.
  intros Hne Hprix Hnum _ view.
  unfold rechercherStations_suite, appliquerFiltres. cbn [stationsData].
  destruct data as [|s t]; [contradiction|].
  rewrite (filtrer_total c (s :: t) Hprix). fold view.
  assert (Hview : Forall (fun s => prix_numeriques s = true) view).
  { apply Forall_forall. intros x Hx.
    assert (Hin : In x (filter (garde_tous c) (s :: t))).
    { subst view.
      destruct (trierStations_cases UTC localeCompare
                  (filter (garde_tous c) (s :: t))
                  (or_else (triSelect c) (lit "date-maj")))
        as [H|[cmp H]]; rewrite H in Hx; [exact Hx|].
      apply (Permutation_in _ (sort_perm cmp _)), Hx. }
    apply filter_In in Hin. rewrite Forall_forall in Hnum.
    apply Hnum. tauto. }
  unfold afficherResultats.
  destruct view as [|v vs] eqn:Ev; [reflexivity|].
  rewrite (map_result_creerCarteStation (v :: vs) Hview). reflexivity.
Qed.

Lemma success_stores_and_shows_witness :
  resultats
    (rechercherStations_suite utc_host ordinal_compare autoroute_sp95
       (Json true None (Some sample_stations)) initial)
  = Results (lit "Paris") [station_autoroute].
Proof.
  refine (eq_trans
            (f_equal resultats
               (success_stores_and_shows utc_host ordinal_compare
                  autoroute_sp95 None sample_stations initial _ _ _ _)) _).
  - discriminate.
  - right. repeat constructor; discriminate.
  - repeat constructor.
  - intros _. repeat constructor.
  - vm_compute. reflexivity.
Defined.

(** X15.  A success response in which a station the filters keep has a
    price whose value is not a Number (a missing value for instance) ends
    as a failure: building the card throws, the page shows the error box,
    and yet the stored collection is already the one of the new response
    and the filtered collection a reordering of what the filters keep, the
    sorted one when the sort is not by price or no average is NaN. *)
Theorem success_with_unprintable_price_shows_error
  (UTC : Z -> Z) (localeCompare : jsstring -> jsstring -> Z)
  (c : Controls) (err : option jsstring)
  (data l : list Station) (s : Station) (a : App) :
  filtrer c data = Ok l -> In s l -> prix_numeriques s = false ->
  let a' :=
    rechercherStations_suite UTC localeCompare c (Json true err (Some data))
      a in
  resultats a' = ErrorBox TypeError
  /\ stationsData a' = data
  /\ Permutation (filteredStations a') l
  /\ isLoading a' = false
  /\ ((tri_par_prix (or_else (triSelect c) (lit "date-maj")) = true ->
       Forall (fun s => isNaN (getPrixMoyen s) = false) l) ->
      filteredStations a'
      = trierStations UTC localeCompare l
          (or_else (triSelect c) (lit "date-maj"))).
Proof.
  intros Hf Hin Hs a'. subst a'.
  unfold rechercherStations_suite, appliquerFiltres. cbn [stationsData].
  destruct data as [|d ds].
  - apply filtrer_Ok_filter in Hf. subst l. contradiction.
  - rewrite Hf.
    assert (Hperm : Permutation
                      (trierStations UTC localeCompare l
                         (or_else (triSelect c) (lit "date-maj"))) l).
    { destruct (trierStations_cases UTC localeCompare l
                  (or_else (triSelect c) (lit "date-maj")))
        as [->|[cmp ->]]; [reflexivity | apply sort_perm]. }
    set (view := trierStations UTC localeCompare l
                   (or_else (triSelect c) (lit "date-maj"))) in *.
    assert (Hview : In s view)
      by (apply (Permutation_in _ (Permutation_sym Hperm)), Hin).
    unfold afficherResultats.
    destruct view as [|v vs] eqn:Ev; [contradiction|].
    rewrite (map_result_creerCarteStation_throws (v :: vs) s Hview Hs).
    cbn. auto.
Qed.

Lemma success_with_unprintable_price_shows_error_witness :
  resultats
    (rechercherStations_suite utc_host ordinal_compare no_filter
       (Json true None (Some [station_valeur_absente])) initial)
  = ErrorBox TypeError.
Proof.
  apply (success_with_unprintable_price_shows_error utc_host ordinal_compare
           no_filter None [station_valeur_absente] [station_valeur_absente]
           station_valeur_absente initial).
  - reflexivity.
  - left. reflexivity.
  - reflexivity.
Defined.

Lemma trim_start_blank s :
  Forall (fun ch => is_ws ch = true) s -> trim_start s = [].
Proof.
  induction 1 as [|ch t Hch Ht IH]; simpl; [reflexivity|].
  rewrite Hch. exact IH.
Qed.

(** X16.  A city made only of white space (or empty) is refused before
    anything else happens: whatever the state, nothing changes, no request
    is sent and the user is told to enter a city. *)
Theorem blank_city_is_refused (c : Controls) (a : App) :
  Forall (fun ch => is_ws ch = true) (villeInput c) ->
  rechercherStations c a
  = (a, [Alert (lit "Veuillez saisir le nom d'une ville")]).
Proof.
  intros Hblank. unfold rechercherStations, trim.
  rewrite (trim_start_blank _ Hblank). reflexivity.
Qed.

Lemma blank_city_is_refused_witness :
  rechercherStations ville_blanche initial
  = (initial, [Alert (lit "Veuillez saisir le nom d'une ville")]).
Proof.
  apply (blank_city_is_refused ville_blanche initial).
  repeat constructor.
Defined.

(** ** Percent-encoding *)

Lemma hex_digit_unreserved n :
  (n < 16)%N -> uri_unreserved (hex_digit n) = true.
Proof.
  intros Hn. unfold hex_digit. destruct (n <? 10)%N eqn:E.
  - apply N.ltb_lt in E. unfold uri_unreserved.
    assert (Hd : is_digit (48 + n)%N = true).
    { unfold is_digit. apply andb_true_iff. split; apply N.leb_le; lia. }
    rewrite Hd, !orb_true_r. reflexivity.
  - apply N.ltb_ge in E. unfold uri_unreserved.
    assert (Hu : ((65 <=? 55 + n) && (55 + n <=? 90))%N = true)
      by (apply andb_true_iff; split; apply N.leb_le; lia).
    rewrite Hu. reflexivity.
Qed.

Lemma pct_safe b :
  (b < 256)%N -> Forall (fun c => url_safe c = true) (pct b).
Proof.
  intros Hb. unfold pct. repeat constructor.
  - unfold url_safe. apply orb_true_iff. left.
    apply hex_digit_unreserved, N.Div0.div_lt_upper_bound. exact Hb.
  - unfold url_safe. apply orb_true_iff. left.
    apply hex_digit_unreserved, N.mod_lt. discriminate.
Qed.

Lemma pct_utf8_safe cp :
  (cp < 1114112)%N -> Forall (fun c => url_safe c = true) (pct_utf8 cp).
Proof.
  intros Hcp. unfold pct_utf8.
  assert (Hm : forall x, (128 + x mod 64 < 256)%N).
  { intros x. pose proof (N.mod_lt x 64). lia. }
  destruct (cp <? 128)%N eqn:E1; [apply N.ltb_lt in E1; apply pct_safe; lia|].
  destruct (cp <? 2048)%N eqn:E2.
  - apply N.ltb_lt in E2. apply Forall_app. split; apply pct_safe; [|apply Hm].
    assert (cp / 64 < 32)%N by (apply N.Div0.div_lt_upper_bound; lia). lia.
  - destruct (cp <? 65536)%N eqn:E3.
    + apply N.ltb_lt in E3.
      repeat (apply Forall_app; split); apply pct_safe; try apply Hm.
      assert (cp / 4096 < 16)%N by (apply N.Div0.div_lt_upper_bound; lia).
      lia.
    + repeat (apply Forall_app; split); apply pct_safe; try apply Hm.
      assert (cp / 262144 < 5)%N by (apply N.Div0.div_lt_upper_bound; lia).
      lia.
Qed.

Lemma encodeURIComponent_safe s : forall q,
  Forall unite_valide s -> encodeURIComponent s = Ok q ->
  Forall (fun c => url_safe c = true) q.
Proof.
  remember (List.length s) as n eqn:Hn.
  revert s Hn. induction n as [n IH] using (well_founded_induction lt_wf).
  intros [|c t] Hn q Hv Henc.
  - injection Henc as <-. constructor.
  - inversion Hv as [|? ? Hc Ht]; subst.
    cbn [encodeURIComponent] in Henc.
    destruct (uri_unreserved c) eqn:Hu.
    + destruct (encodeURIComponent t) as [r|e] eqn:Er; [|discriminate Henc].
      injection Henc as <-. constructor.
      * unfold url_safe. rewrite Hu. reflexivity.
      * apply (IH (List.length t)) with (s := t); simpl; auto.
    + destruct (is_trail_surrogate c) eqn:Htr; [discriminate Henc|].
      destruct (is_lead_surrogate c) eqn:Hld.
      * destruct t as [|c2 t']; [discriminate Henc|].
        destruct (is_trail_surrogate c2) eqn:Htr2; [|discriminate Henc].
        destruct (encodeURIComponent t') as [r|e] eqn:Er;
          [|discriminate Henc].
        injection Henc as <-. apply Forall_app. split.
        -- apply pct_utf8_safe.
           unfold is_lead_surrogate, is_trail_surrogate in Hld, Htr2.
           apply andb_true_iff in Hld, Htr2.
           destruct Hld as [L1 L2], Htr2 as [T1 T2].
           apply N.leb_le in L1, L2, T1, T2. lia.
        -- inversion Ht; subst.
           apply (IH (List.length t')) with (s := t'); simpl; auto.
      * destruct (encodeURIComponent t) as [r|e] eqn:Er; [|discriminate Henc].
        injection Henc as <-. apply Forall_app. split.
        -- apply pct_utf8_safe. unfold unite_valide in Hc. lia.
        -- apply (IH (List.length t)) with (s := t); simpl; auto.
Qed.

(** X17.  The text link never carries a raw character of the brand or the
    address that has a meaning in a URL: when the query holds code units
    only (values below 2^16), the encoded query is made of unreserved
    characters and percent escapes. *)
Theorem text_link_is_percent_encoded (station : Station) (q : jsstring) :
  Forall unite_valide (searchQuery station) ->
  generateGoogleMapsUrl station = Ok (MapsSearch q) ->
  encodeURIComponent (searchQuery station) = Ok q
  /\ Forall (fun c => url_safe c = true) q.
Proof.
  intros Hv Hg. rewrite generateGoogleMapsUrl_usable in Hg.
  destruct (coordonnees_utilisables station); [discriminate Hg|].
  destruct (encodeURIComponent (searchQuery station)) as [r|e] eqn:Er;
    [|discriminate Hg].
  simpl in Hg. injection Hg as <-. split; [reflexivity|].
  apply (encodeURIComponent_safe (searchQuery station) r Hv Er).
Qed.

Lemma text_link_is_percent_encoded_witness :
  Forall (fun c => url_safe c = true)
    (lit "Station-service%203%20avenue%20de%20Clichy%2C%2075017%20Paris%2C%20France").
Proof.
  refine (proj2 (text_link_is_percent_encoded station_route _ _ eq_refl)).
  repeat constructor.
Defined.

Lemma Forall_trim_start (P : code_unit -> Prop) s :
  Forall P s -> Forall P (trim_start s).
Proof.
  induction 1 as [|c t Hc Ht IH]; simpl; [constructor|].
  destruct (is_ws c); [exact IH | constructor; assumption].
Qed.

Lemma Forall_trim (P : code_unit -> Prop) s : Forall P s -> Forall P (trim s).
Proof.
  intros H. unfold trim, trim_end.
  apply Forall_rev, Forall_trim_start, Forall_rev, Forall_trim_start, H.
Qed.

(** X18.  An idle controller asked for a city that is not blank and has no
    unpaired surrogate sends exactly one request, to [/api/search?ville=]
    followed by the percent-encoded trimmed city, sets [isLoading], shows
    the loading indicator and keeps both collections; the encoded city
    holds unreserved characters and percent escapes only. *)
Theorem idle_search_sends_one_request (c : Controls) (a : App) :
  isLoading a = false ->
  trim (villeInput c) <> [] ->
  bien_forme (trim (villeInput c)) = true ->
  Forall unite_valide (villeInput c) ->
  exists q,
    encodeURIComponent (trim (villeInput c)) = Ok q
    /\ Forall (fun ch => url_safe ch = true) q
    /\ rechercherStations c a
       = ({| stationsData := stationsData a;
             filteredStations := filteredStations a;
             isLoading := true;
             resultats := Loading |},
          [Fetch (lit "/api/search?ville=" ++ q)]).
Proof.
  intros Hidle Hne Hwf Hv.
  pose proof (encodeURIComponent_bien_forme (trim (villeInput c))) as Henc.
  rewrite Hwf in Henc. destruct Henc as [q Hq].
  exists q. split; [exact Hq|]. split.
  - apply (encodeURIComponent_safe _ q (Forall_trim _ _ Hv) Hq).
  - unfold rechercherStations.
    destruct (trim (villeInput c)) as [|ch t] eqn:E; [contradiction|].
    rewrite Hidle, Hq. reflexivity.
Qed.

Lemma idle_search_sends_one_request_witness :
  exists q,
    rechercherStations no_filter initial
    = ({| stationsData := []; filteredStations := [];
          isLoading := true; resultats := Loading |},
       [Fetch (lit "/api/search?ville=" ++ q)]).
Proof.
  destruct (idle_search_sends_one_request no_filter initial)
    as (q & _ & _ & Hq).
  - reflexivity.
  - discriminate.
  - reflexivity.
  - repeat constructor.
  - exists q. exact Hq.
Defined.

(** ** The station name *)

Lemma split_space_cons s : exists w ws, split_space s = w :: ws.
Proof.
  induction s as [|c t IH]; simpl; [eauto|].
  destruct (c =? 32)%N; [eauto|].
  destruct IH as (w & ws & ->). eauto.
Qed.

Lemma split_space_no_space s :
  includes_space s = false -> split_space s = [s].
Proof.
  induction s as [|c t IH]; simpl; [reflexivity|].
  destruct (c =? 32)%N; [discriminate|]. simpl.
  intros H. rewrite (IH H). reflexivity.
Qed.

Lemma split_space_first s w ws :
  split_space s = w :: ws ->
  includes_space w = false
  /\ exists rest, s = w ++ rest /\ (rest = [] \/ exists r, rest = 32%N :: r).
Proof.
  revert w ws. induction s as [|c t IH]; simpl; intros w ws H.
  - injection H as <- <-. split; [reflexivity|]. exists []. auto.
  - destruct (c =? 32)%N eqn:E.
    + injection H as <- <-. split; [reflexivity|].
      apply N.eqb_eq in E. subst c. exists (32%N :: t). eauto.
    + destruct (split_space t) as [|w' ws'] eqn:Et.
      * destruct (split_space_cons t) as (x & xs & Hx). congruence.
      * injection H as <- <-.
        destruct (IH w' ws' eq_refl) as (Hw & rest & Hrest & Hsp).
        split; [simpl; rewrite E; exact Hw|].
        exists rest. split; [simpl; rewrite Hrest at 1; reflexivity|].
        exact Hsp.
Qed.

(** X19.  For a brand that is neither missing, empty nor the placeholder
    ["Station-service"], the name is the brand with every word between
    spaces capitalised and the spaces kept; the test for a space in the
    brand changes nothing, and the address is not used. *)
Theorem formatNomStation_capitalises_words
  (toUpperCase toLowerCase : jsstring -> jsstring)
  (marque adresse : option jsstring) :
  or_else marque [] <> [] ->
  or_else marque [] <> lit "Station-service" ->
  formatNomStation toUpperCase toLowerCase marque adresse
  = join_space
      (List.map (capitalise toUpperCase toLowerCase)
         (split_space (or_else marque []))).
Proof.
  intros Hne Hdef. unfold formatNomStation.
  rewrite (str_eqb_neq _ _ Hne), (str_eqb_neq _ _ Hdef). cbn [orb].
  destruct (includes_space (or_else marque [])) eqn:E; [reflexivity|].
  rewrite (split_space_no_space _ E). reflexivity.
Qed.

Lemma formatNomStation_capitalises_words_witness :
  formatNomStation ascii_upper ascii_lower (Some (lit "total ACCESS")) None
  = lit "Total Access".
Proof.
  refine (eq_trans
            (formatNomStation_capitalises_words ascii_upper ascii_lower
               (Some (lit "total ACCESS")) None _ _) _).
  - discriminate.
  - discriminate.
  - reflexivity.
Defined.

(** X20.  For a brand that is missing, empty or the placeholder, the name
    is ["Station-service"] when the address is missing or empty, and
    otherwise what the address holds before its first space: a piece
    without a space, which is empty when the address starts with a space.
    The case mappings play no part. *)
Theorem formatNomStation_without_brand
  (toUpperCase toLowerCase : jsstring -> jsstring)
  (marque adresse : option jsstring) :
  or_else marque [] = [] \/ or_else marque [] = lit "Station-service" ->
  let nom := formatNomStation toUpperCase toLowerCase marque adresse in
  (or_else adresse [] = [] -> nom = lit "Station-service")
  /\ (or_else adresse [] <> [] ->
      includes_space nom = false
      /\ exists rest,
           or_else adresse [] = nom ++ rest
           /\ (rest = [] \/ exists r, rest = 32%N :: r)).
Proof.
  intros Hm nom.
  assert (Hb : str_eqb (or_else marque []) []
               || str_eqb (or_else marque []) (lit "Station-service") = true).
  { destruct Hm as [-> | ->]; reflexivity. }
  subst nom. unfold formatNomStation. rewrite Hb.
  destruct adresse as [[|c a]|]; simpl or_else; split;
    try reflexivity; try (intros H; contradiction H; reflexivity);
    try discriminate.
  intros _.
  destruct (split_space (c :: a)) as [|w ws] eqn:E.
  - destruct (split_space_cons (c :: a)) as (x & xs & Hx). congruence.
  - apply (split_space_first (c :: a) w ws E).
Qed.

Lemma formatNomStation_without_brand_witness :
  formatNomStation ascii_upper ascii_lower (marque station_route)
    (adresse station_route) = lit "3".
Proof.
  destruct (formatNomStation_without_brand ascii_upper ascii_lower
              (marque station_route) (adresse station_route))
    as [_ H]; [right; reflexivity|].
  destruct H as [_ _]; [discriminate|]. reflexivity.
Defined.

(** ** The advanced search panel *)

(** X21.  After a click on the link the panel is hidden or shown and the
    label says which: hidden with the label that opens it, shown with the
    label that hides it.  A panel that was not hidden gets hidden, one that
    was hidden is shown, and from then on two clicks bring the same state
    back. *)
Theorem toggleAdvancedSearch_alternates (p p' : Panel) :
  toggleAdvancedSearch (Some p) = Some p' ->
  (advanced_display p' = lit "none" /\ toggle_html p' = LabelOpen
   \/ advanced_display p' = lit "block" /\ toggle_html p' = LabelHide)
  /\ (advanced_display p = lit "none" <-> advanced_display p' = lit "block")
  /\ toggleAdvancedSearch (toggleAdvancedSearch (Some p')) = Some p'.
Proof.
  unfold toggleAdvancedSearch. intros H. injection H as <-.
  destruct (str_eqb (advanced_display p) (lit "none")) eqn:E; simpl.
  - apply str_eqb_eq in E. repeat split; auto.
  - repeat split; auto; intros H; [|discriminate H].
    apply str_eqb_eq in H. congruence.
Qed.

Lemma toggleAdvancedSearch_alternates_witness :
  toggleAdvancedSearch
    (toggleAdvancedSearch
       (Some {| advanced_display := lit "none"; toggle_html := LabelOpen |}))
  = Some {| advanced_display := lit "none"; toggle_html := LabelOpen |}.
Proof.
  exact (proj2 (proj2 (toggleAdvancedSearch_alternates
                         {| advanced_display := []; toggle_html := LabelOpen |}
                         {| advanced_display := lit "none";
                            toggle_html := LabelOpen |}
                         eq_refl))).
Defined.

(** ** Coordinates and the text query *)

Lemma is_digit_range c : is_digit c = true -> (48 <= c <= 57)%N.
Proof.
  unfold is_digit. rewrite andb_true_iff, !N.leb_le. tauto.
Qed.

Lemma span_digits_all d :
  forallb is_digit d = true -> span_digits d = (d, []).
Proof.
  induction d as [|c t IH]; simpl; [reflexivity|].
  rewrite andb_true_iff. intros [Hc Ht]. rewrite Hc, (IH Ht). reflexivity.
Qed.

Lemma digits_val_nonneg d : forall acc,
  forallb is_digit d = true -> 0 <= acc ->
  0 <= fold_left (fun acc c => 10 * acc + digit_val c) d acc.
Proof.
  induction d as [|c t IH]; cbn [fold_left forallb]; intros acc Hd Hacc;
    [exact Hacc|].
  apply andb_true_iff in Hd. destruct Hd as [Hc Ht].
  apply IH; [exact Ht|]. apply is_digit_range in Hc.
  unfold digit_val. lia.
Qed.

Lemma binary_round_zero_sign s m e s' :
  binary_round prec emax s m e = S754_zero s' -> s' = s.
Proof.
  unfold binary_round.
  destruct (shl_align m e _) as [mz ez].
  unfold binary_round_aux.
  destruct (shr_fexp prec emax (Zpos mz) ez loc_Exact) as [mrs' e'].
  destruct (shr_fexp prec emax _ e' loc_Exact) as [mrs'' e''].
  destruct (shr_m mrs'') as [|p|p]; try discriminate.
  - intros H. injection H as ->. reflexivity.
  - destruct (e'' <=? emax - prec); discriminate.
Qed.

Lemma parseFloat_num_of_Z z :
  0 <= z -> parseFloat (VNum (num_of_Z z)) = num_of_Z z.
Proof.
  intros Hz. unfold parseFloat.
  destruct (num_of_Z z) as [s|s| |s m e] eqn:E; try reflexivity.
  simpl. unfold zero. unfold num_of_Z, binary_normalize in E.
  destruct z as [|p|p]; [congruence| |lia].
  apply binary_round_zero_sign in E. subst s. reflexivity.
Qed.

Lemma parseFloat_digits d :
  d <> [] -> forallb is_digit d = true ->
  parseFloat (VStr d) = num_of_Z (digits_val d).
Proof.
  intros Hne Hd. destruct d as [|c t]; [contradiction|].
  pose proof Hd as Hd'. simpl in Hd'. apply andb_true_iff in Hd'.
  destruct Hd' as [Hc Ht]. pose proof (is_digit_range c Hc) as Hr.
  assert (Hws : is_ws c = false).
  { unfold is_ws.
    repeat match goal with
           | |- context [(?a <=? ?b)%N] =>
               let E := fresh in
               destruct (a <=? b)%N eqn:E;
               [apply N.leb_le in E | apply N.leb_gt in E]
           | |- context [(?a =? ?b)%N] =>
               let E := fresh in
               destruct (a =? b)%N eqn:E;
               [apply N.eqb_eq in E | apply N.eqb_neq in E]
           end; simpl; try reflexivity; lia. }
  unfold parseFloat, parseFloat_string. cbn [trim_start]. rewrite Hws.
  replace (c =? 45)%N with false by (symmetry; apply N.eqb_neq; lia).
  replace (c =? 43)%N with false by (symmetry; apply N.eqb_neq; lia).
  unfold unsigned_literal.
  assert (Hinf : starts_with (lit "Infinity") (c :: t) = false).
  { change (lit "Infinity") with (73%N :: lit "nfinity").
    cbn [starts_with]. rewrite (proj2 (N.eqb_neq 73 c)) by lia.
    reflexivity. }
  rewrite Hinf.
  rewrite (span_digits_all (c :: t) Hd). rewrite app_nil_r.
  change (exponent_part [] - Z.of_nat (List.length (@nil code_unit)))
    with 0.
  pose proof (digits_val_nonneg (c :: t) 0 Hd (Z.le_refl 0)) as Hpos.
  fold (digits_val (c :: t)) in Hpos.
  destruct (digits_val (c :: t)) as [|m|m]; [reflexivity| |lia].
  unfold num_of_decimal, num_of_Z, binary_normalize.
  change (Z.to_pos (10 ^ 0)) with 1%positive. rewrite Pos.mul_1_r.
  reflexivity.
Qed.

(** X22.  A coordinate sent as a string of decimal digits reads as the
    integer it writes, so a station gets the same link whether its
    coordinates arrive as such strings or as the corresponding numbers. *)
Theorem coordinates_as_digits_or_numbers
  (station : Station) (lat lon : jsstring) :
  lat <> [] -> lon <> [] ->
  forallb is_digit lat = true -> forallb is_digit lon = true ->
  parseFloat (VStr lat) = num_of_Z (digits_val lat)
  /\ generateGoogleMapsUrl
       (with_coordinates (VStr lat) (VStr lon) station)
     = generateGoogleMapsUrl
         (with_coordinates (VNum (num_of_Z (digits_val lat)))
            (VNum (num_of_Z (digits_val lon))) station).
Proof.
  intros Hlat Hlon Dlat Dlon.
  split; [apply parseFloat_digits; assumption|].
  rewrite !generateGoogleMapsUrl_usable.
  unfold coordonnees_utilisables, degrees. cbn [latitude longitude with_coordinates].
  rewrite (parseFloat_digits lat Hlat Dlat), (parseFloat_digits lon Hlon Dlon).
  rewrite !parseFloat_num_of_Z
    by (apply digits_val_nonneg; [assumption | lia]).
  reflexivity.
Qed.

Lemma coordinates_as_digits_or_numbers_witness :
  generateGoogleMapsUrl station_autoroute
  = generateGoogleMapsUrl
      (with_coordinates (VNum (num_of_Z 4885000)) (VNum (num_of_Z 235000))
         station_autoroute).
Proof.
  refine (proj2 (coordinates_as_digits_or_numbers station_autoroute
                   (lit "4885000") (lit "235000") _ _ eq_refl eq_refl));
    discriminate.
Defined.

(** X23.  The text query always begins with a brand that is not blank,
    followed by a space and the full address: the brand of the station, or
    ["Station-service"] when the station has no brand, an empty one, one
    made of white space only, or that placeholder itself. *)
Theorem searchQuery_starts_with_a_brand (station : Station) :
  exists brand,
    searchQuery station = brand ++ lit " " ++ adresseComplete station
    /\ trim brand <> []
    /\ (brand = lit "Station-service"
        \/ marque station = Some brand).
Proof.
  unfold searchQuery.
  destruct (negb (str_eqb (or_else (marque station) (lit "Station-service"))
                    (lit "Station-service"))
            && negb (str_eqb
                       (trim (or_else (marque station)
                                (lit "Station-service"))) [])) eqn:E.
  - apply andb_true_iff in E. destruct E as [E1 E2].
    apply negb_true_iff in E1, E2.
    exists (or_else (marque station) (lit "Station-service")).
    split; [reflexivity|]. split.
    + intros H. rewrite H in E2. discriminate E2.
    + destruct (marque station) as [[|c m]|]; simpl in *;
        try discriminate E1. right. reflexivity.
  - exists (lit "Station-service"). split; [reflexivity|].
    split; [discriminate | left; reflexivity].
Qed.
